(** * abc-mini: the BLIF importer, its dynamic array and its fault channel

    A shallow embedding of

    - [lib/BlifReader.cpp]: the pointer vector [Vec] with [vec_alloc],
      [vec_grow], [vec_push], [vec_entry_at], [vec_remove], and the importer
      [AbcMiniReadBlif];
    - [lib/Diagnostics.cpp] and [lib/Log.h]: the handler list with
      [AbcMiniInstallFaultHandler], [AbcMiniResetFaultHandlers] and
      [emit_fault].

    The program works on a heap of C++ objects through raw pointers, so the
    embedding is a state-and-failure monad over an explicit heap.  The build
    modelled is the one with [ABC_MINI_ENABLE_ASSERTIONS], where [assert]
    aborts the process. *)

From Stdlib Require Import Ascii String.
From stdpp Require Import list strings pretty.

Local Open Scope Z_scope.

(** ** Machine integers

    [int] and [unsigned] are 32 bits wide.  Values are kept in [Z]; every
    arithmetic result is brought back into range with the wrap-around written
    out. *)

Definition INT_MAX : Z := 2147483647.

Definition wrap_uint (z : Z) : Z := z `mod` 4294967296.
Definition wrap_int (z : Z) : Z := (z + 2147483648) `mod` 4294967296 - 2147483648.

(** ** Pointers and objects

    A pointer carries the kind of object it was created for, the block that
    holds the object, and for a slot of a storage array the index of the slot.
    [reinterpret_cast] keeps the pointer value as it is; an access through a
    pointer of the wrong kind has no defined behaviour. *)

Abbreviation block := nat (only parsing).

Inductive ptr : Type :=
| Null
| PVec (b : block)              (* Vec *                    *)
| PSlot (b : block) (i : Z)     (* void ** : slot i of storage array b *)
| PNtk (b : block)              (* AbcNetworkImpl *         *)
| PDes (b : block)              (* AbcDesignImpl *          *)
| PMan (b : block)              (* BlifManagerImpl *        *)
| PHandle (b : block)           (* AbcNetwork * : a handle variable *)
| PExt (k : nat).               (* objects of the ABC library proper *)

Global Instance ptr_eq_dec : EqDecision ptr.
Proof. solve_decision. Defined.

(* ABC_MINI: Alias-of: Vec_Ptr_t *)
Record Vec := mkVec {
  capacity : Z;
  size : Z;
  array : option block;         (* void **array; None is nullptr *)
}.

(* ABC_MINI: Alias-of: Abc_Ntk_t -- the fields the importer touches *)
Record AbcNetworkImpl := mkNtk {
  ntk_name : string;
  _unused_spec : option string;
  _unused_ltl_properties : ptr;
  ntk_design : ptr;
  exdc_network : ptr;
}.

(* ABC_MINI: Alias-of: Abc_Des_t *)
Record AbcDesignImpl := mkDes {
  des_name : string;
  _unused_func_man : ptr;
  top_level_modules : ptr;
  modules : ptr;
}.

(* ABC_MINI: Alias-of: Io_MvMan_t *)
Record BlifManagerImpl := mkMan {
  _unused_is_blifmv : Z;
  _unused_use_reset : Z;
  filename : option string;
  buffer : option string;
  man_design : ptr;
  error : string;
}.

Inductive object : Type :=
| OVec (v : Vec)
| OArray (slots : list (option ptr))    (* None: never written *)
| ONtk (n : AbcNetworkImpl)
| ODes (d : AbcDesignImpl)
| OMan (m : BlifManagerImpl)
| OHandle (p : ptr).

(** ** Fault handlers *)

Inductive AbcMiniFaultHandler : Type :=
| default_fault_handler
| user_handler (id : nat).

Global Instance handler_eq_dec : EqDecision AbcMiniFaultHandler.
Proof. solve_decision. Defined.

(** ** Program state

    [heap !! b] is [None] for a block never allocated, [Some None] for a freed
    one.  [handlers] is the static vector of [FaultHandlerStack::handlers];
    [delivered] records every handler invocation with the message it got. *)

Record state := mkState {
  heap : list (option object);
  handlers : list AbcMiniFaultHandler;
  delivered : list (AbcMiniFaultHandler * string);
  vGlobalLtlArray : ptr;
}.

Definition set_heap (h : list (option object)) (st : state) : state :=
  mkState h (handlers st) (delivered st) (vGlobalLtlArray st).
Definition set_handlers (hs : list AbcMiniFaultHandler) (st : state) : state :=
  mkState (heap st) hs (delivered st) (vGlobalLtlArray st).
Definition set_delivered (d : list (AbcMiniFaultHandler * string)) (st : state) : state :=
  mkState (heap st) (handlers st) d (vGlobalLtlArray st).
Definition set_global (p : ptr) (st : state) : state :=
  mkState (heap st) (handlers st) (delivered st) p.

(** ** Outcomes *)

Inductive fault : Type :=
| NullDereference
| DanglingPointer       (* block freed or never allocated *)
| WrongObject           (* access through a pointer of another kind *)
| OutOfBounds
| Indeterminate.        (* read of a slot never written *)

Inductive failure : Type :=
| AssertionFailed
| Undefined (f : fault)
| FormatError           (* std::format_error thrown by std::vformat *)
| OutOfFuel.

Inductive outcome (A : Type) : Type :=
| Ret (a : A)
| Stop (f : failure).
Arguments Ret {A} a.
Arguments Stop {A} f.

Definition M (A : Type) : Type := state -> outcome (A * state).

Definition ret {A} (a : A) : M A := fun st => Ret (a, st).
Definition bind {A B} (m : M A) (k : A -> M B) : M B :=
  fun st => match m st with
            | Ret (a, st') => k a st'
            | Stop f => Stop f
            end.
Definition stop {A} (f : failure) : M A := fun _ => Stop f.
Definition get : M state := fun st => Ret (st, st).
Definition put (st : state) : M unit := fun _ => Ret (tt, st).

Declare Scope m_scope.
Delimit Scope m_scope with M.
Notation "x <- c1 ;; c2" := (bind c1 (fun x => c2))
  (at level 100, c1 at next level, right associativity) : m_scope.
Notation "c1 ;;; c2" := (bind c1 (fun _ => c2))
  (at level 100, right associativity) : m_scope.
Local Open Scope m_scope.

(* assert(cond) *)
Definition assertion (cond : bool) : M unit :=
  if cond then ret tt else stop AssertionFailed.

(** ** Heap access *)

Definition alloc (o : object) : M block :=
  fun st => Ret (length (heap st), set_heap (heap st ++ [Some o]) st).

Definition load (b : block) : M object :=
  fun st => match heap st !! b with
            | Some (Some o) => Ret (o, st)
            | _ => Stop (Undefined DanglingPointer)
            end.

Definition store (b : block) (o : object) : M unit :=
  _ <- load b ;; fun st => Ret (tt, set_heap (<[b := Some o]> (heap st)) st).

(* free(p) on a live block *)
Definition free (b : block) : M unit :=
  _ <- load b ;; fun st => Ret (tt, set_heap (<[b := None]> (heap st)) st).

Definition load_vec (p : ptr) : M Vec :=
  match p with
  | Null => stop (Undefined NullDereference)
  | PVec b => o <- load b ;;
              match o with OVec v => ret v | _ => stop (Undefined WrongObject) end
  | _ => stop (Undefined WrongObject)
  end.

Definition store_vec (p : ptr) (v : Vec) : M unit :=
  _ <- load_vec p ;;
  match p with PVec b => store b (OVec v) | _ => stop (Undefined WrongObject) end.

Definition load_array (b : block) : M (list (option ptr)) :=
  o <- load b ;;
  match o with OArray s => ret s | _ => stop (Undefined WrongObject) end.

(* vec.array[i] as an rvalue *)
Definition read_slot (a : option block) (i : Z) : M ptr :=
  match a with
  | None => stop (Undefined NullDereference)
  | Some b =>
      s <- load_array b ;;
      if (0 <=? i) && (i <? Z.of_nat (length s)) then
        match s !! Z.to_nat i with
        | Some (Some p) => ret p
        | _ => stop (Undefined Indeterminate)
        end
      else stop (Undefined OutOfBounds)
  end.

(* vec.array[i] = p *)
Definition write_slot (a : option block) (i : Z) (p : ptr) : M unit :=
  match a with
  | None => stop (Undefined NullDereference)
  | Some b =>
      s <- load_array b ;;
      if (0 <=? i) && (i <? Z.of_nat (length s)) then
        store b (OArray (<[Z.to_nat i := Some p]> s))
      else stop (Undefined OutOfBounds)
  end.

(* malloc of n pointer slots: the int n is converted to size_t, so that a
   negative n asks for more than the address space and malloc returns null *)
Definition malloc_array (n : Z) : M (option block) :=
  if n <? 0 then ret None
  else b <- alloc (OArray (replicate (Z.to_nat n) None)) ;; ret (Some b).

(* realloc of old to n pointer slots: a new block that starts with the old
   contents; the old block is released.  As with malloc a negative n fails:
   null is returned and the old block is left alone. *)
Definition realloc_array (old : option block) (n : Z) : M (option block) :=
  if n <? 0 then ret None
  else
    s <- match old with Some b => load_array b | None => ret [] end ;;
    b' <- alloc (OArray (take (Z.to_nat n) s ++
                         replicate (Z.to_nat n - length s)%nat None)) ;;
    match old with Some b => free b | None => ret tt end ;;;
    ret (Some b').

(** ** The dynamic array *)

Definition vec_alloc (capacity : Z) : M ptr :=
  b <- alloc (OVec (mkVec 0 0 None)) ;;
  let capacity := if (0 <? capacity) && (capacity <? 8) then 8 else capacity in
  a <- (if capacity =? 0 then ret None else malloc_array capacity) ;;
  store b (OVec (mkVec capacity 0 a)) ;;;
  ret (PVec b).

Definition vec_grow (vec : ptr) (min_capacity : Z) : M unit :=
  v <- load_vec vec ;;
  if min_capacity <=? capacity v then ret tt
  else
    a <- realloc_array (array v) min_capacity ;;
    store_vec vec (mkVec min_capacity (size v) a).

Definition vec_push (vec : ptr) (entry : ptr) : M unit :=
  v <- load_vec vec ;;
  (if size v =? capacity v then
     if capacity v <? 16 then vec_grow vec 16
     else vec_grow vec (wrap_int (capacity v * 2))
   else ret tt) ;;;
  v <- load_vec vec ;;
  let next_i := size v in
  write_slot (array v) next_i entry ;;;
  store_vec vec (mkVec (capacity v) (wrap_int (size v + 1)) (array v)).

(* [index] is unsigned, so [vec.size] is converted to unsigned for the
   comparison.  The value returned is [vec.array + index], the address of
   the slot, cast to the result type. *)
Definition vec_entry_at (vec : ptr) (index : Z) : M ptr :=
  v <- load_vec vec ;;
  assertion (index <? wrap_uint (size v)) ;;;
  match array v with
  | Some b => ret (PSlot b index)
  | None => if index =? 0 then ret Null else stop (Undefined NullDereference)
  end.

(* first loop of vec_remove: [for (...; i >= 0; --i)] with [unsigned i] *)
Fixpoint vec_remove_scan (fuel : nat) (a : option block) (entry : ptr) (i : Z) : M Z :=
  match fuel with
  | O => stop OutOfFuel
  | S fuel =>
      if 0 <=? i then
        p <- read_slot a i ;;
        if decide (p = entry) then ret i
        else vec_remove_scan fuel a entry (wrap_uint (i - 1))
      else ret i
  end.

(* second loop of vec_remove: [for (++i; i < vec.size; ++i)] *)
Fixpoint vec_remove_shift (fuel : nat) (a : option block) (sz : Z) (i : Z) : M unit :=
  match fuel with
  | O => stop OutOfFuel
  | S fuel =>
      if i <? wrap_uint sz then
        p <- read_slot a i ;;
        write_slot a (wrap_uint (i - 1)) p ;;;
        vec_remove_shift fuel a sz (wrap_uint (i + 1))
      else ret tt
  end.

(* The scan starts at [size - 1] as an unsigned number and runs down to slot
   0 and once more at the wrapped index; the shift runs up to [size].  The
   fuel covers both for every storage array of fewer than 4294967296 slots. *)
Definition vec_remove (vec : ptr) (entry : ptr) : M unit :=
  v <- load_vec vec ;;
  let i0 := wrap_uint (size v - 1) in
  i <- vec_remove_scan (Z.to_nat i0 + 2) (array v) entry i0 ;;
  assertion (0 <=? i) ;;;
  vec_remove_shift (Z.to_nat (wrap_uint (size v)) + 1) (array v) (size v)
                   (wrap_uint (i + 1)) ;;;
  store_vec vec (mkVec (capacity v) (wrap_int (size v - 1)) (array v)).

(** ** The fault channel ([Diagnostics.cpp], [Log.h]) *)

Definition AbcMiniInstallFaultHandler (Handler : AbcMiniFaultHandler) : M unit :=
  st <- get ;;
  let hs := handlers st in
  if (length hs =? 1)%nat && bool_decide (hs !! 0%nat = Some default_fault_handler)
  then put (set_handlers (<[0%nat := Handler]> hs) st)
  else put (set_handlers (hs ++ [Handler]) st).

Definition AbcMiniResetFaultHandlers : M unit :=
  st <- get ;;
  put (set_handlers ([] ++ [default_fault_handler]) st).

(* what the default handler prints on the standard output *)
Definition default_fault_output (Reason : string) : string :=
  "AbcMini error: " +:+ Reason +:+ String "010"%char "".

Definition is_whitespace (ch : ascii) : bool :=
  existsb (Ascii.eqb ch)
    [" "%char; "009"%char; "013"%char; "010"%char].

Definition quote_if_necessary (text : string) : string :=
  if existsb is_whitespace (list_ascii_of_string text)
  then String "034"%char text +:+ String "034"%char ""
  else text.

Inductive format_arg : Type :=
| arg_str (s : string)
| arg_int (z : Z).

Definition render (a : format_arg) : string :=
  match a with
  | arg_str s => s
  | arg_int z => pretty z
  end.

(** [std::vformat] for the format strings of this program: the replacement
    field is a bare pair of braces, a doubled brace stands for one brace, and
    anything else between braces, a field with no argument left, or a lone
    closing brace raises [std::format_error].  Arguments left over are
    ignored. *)
Fixpoint format_message (format : string) (args : list format_arg) : option string :=
  match format with
  | EmptyString => Some EmptyString
  | String c rest =>
      if Ascii.eqb c "{"%char then
        match rest with
        | String c' rest' =>
            if Ascii.eqb c' "{"%char then String c <$> format_message rest' args
            else if Ascii.eqb c' "}"%char then
              match args with
              | a :: args' => (fun s => render a +:+ s) <$> format_message rest' args'
              | [] => None
              end
            else None
        | EmptyString => None
        end
      else if Ascii.eqb c "}"%char then
        match rest with
        | String c' rest' =>
            if Ascii.eqb c' "}"%char then String c <$> format_message rest' args
            else None
        | EmptyString => None
        end
      else String c <$> format_message rest args
  end.

Record source_location := mkLoc {
  file_name : string;
  function_name : string;
  line : Z;
}.

(* handler(message.c_str()) *)
Definition call_handler (h : AbcMiniFaultHandler) (message : string) : M unit :=
  st <- get ;; put (set_delivered (delivered st ++ [(h, message)]) st).

(* the body of the range-for in emit_fault; [debug] is ABC_MINI_EMIT_DEBUG_INFO *)
Definition emit_to (debug : bool) (loc : source_location)
    (format : string) (args : list format_arg) (handler : AbcMiniFaultHandler) : M unit :=
  match format_message format args with
  | None => stop FormatError
  | Some message =>
      if debug then
        match format_message "{}:{}:{}: {}"
                [arg_str (quote_if_necessary (file_name loc));
                 arg_str (quote_if_necessary (function_name loc));
                 arg_int (line loc); arg_str message] with
        | None => stop FormatError
        | Some message => call_handler handler message
        end
      else call_handler handler message
  end.

Fixpoint for_each {A} (f : A -> M unit) (l : list A) : M unit :=
  match l with
  | [] => ret tt
  | x :: l => f x ;;; for_each f l
  end.

Definition emit_fault (debug : bool) (loc : source_location)
    (format : string) (args : list format_arg) : M unit :=
  st <- get ;;
  for_each (emit_to debug loc format args) (handlers st).

(** ** Typed access to the objects of the importer *)

Definition load_ntk (p : ptr) : M AbcNetworkImpl :=
  match p with
  | Null => stop (Undefined NullDereference)
  | PNtk b => o <- load b ;;
              match o with ONtk n => ret n | _ => stop (Undefined WrongObject) end
  | _ => stop (Undefined WrongObject)
  end.

Definition store_ntk (p : ptr) (n : AbcNetworkImpl) : M unit :=
  _ <- load_ntk p ;;
  match p with PNtk b => store b (ONtk n) | _ => stop (Undefined WrongObject) end.

Definition load_des (p : ptr) : M AbcDesignImpl :=
  match p with
  | Null => stop (Undefined NullDereference)
  | PDes b => o <- load b ;;
              match o with ODes d => ret d | _ => stop (Undefined WrongObject) end
  | _ => stop (Undefined WrongObject)
  end.

Definition store_des (p : ptr) (d : AbcDesignImpl) : M unit :=
  _ <- load_des p ;;
  match p with PDes b => store b (ODes d) | _ => stop (Undefined WrongObject) end.

Definition load_man (p : ptr) : M BlifManagerImpl :=
  match p with
  | Null => stop (Undefined NullDereference)
  | PMan b => o <- load b ;;
              match o with OMan m => ret m | _ => stop (Undefined WrongObject) end
  | _ => stop (Undefined WrongObject)
  end.

Definition store_man (p : ptr) (m : BlifManagerImpl) : M unit :=
  _ <- load_man p ;;
  match p with PMan b => store b (OMan m) | _ => stop (Undefined WrongObject) end.

(* *OutNetwork = p *)
Definition store_handle (OutNetwork : ptr) (p : ptr) : M unit :=
  match OutNetwork with
  | Null => stop (Undefined NullDereference)
  | PHandle b => o <- load b ;;
                 match o with
                 | OHandle _ => store b (OHandle p)
                 | _ => stop (Undefined WrongObject)
                 end
  | _ => stop (Undefined WrongObject)
  end.

(* field assignments [p->field = value] *)
Definition set_ntk_design (p design : ptr) : M unit :=
  n <- load_ntk p ;;
  store_ntk p (mkNtk (ntk_name n) (_unused_spec n) (_unused_ltl_properties n)
                     design (exdc_network n)).
Definition set_ntk_exdc (p exdc : ptr) : M unit :=
  n <- load_ntk p ;;
  store_ntk p (mkNtk (ntk_name n) (_unused_spec n) (_unused_ltl_properties n)
                     (ntk_design n) exdc).
Definition set_ntk_spec (p : ptr) (spec : option string) : M unit :=
  n <- load_ntk p ;;
  store_ntk p (mkNtk (ntk_name n) spec (_unused_ltl_properties n)
                     (ntk_design n) (exdc_network n)).
Definition set_des_func_man (p func_man : ptr) : M unit :=
  d <- load_des p ;;
  store_des p (mkDes (des_name d) func_man (top_level_modules d) (modules d)).

(** ** The ABC library

    [BlifReader.cpp] declares these functions [extern "C"]; their bodies are
    in ABC proper (base/abc/abcLib.c, base/abc/abcCheck.c,
    base/io/ioReadBlifMv.c, ...).  The importer is written against this
    interface. *)

Class AbcLibrary := {
  Abc_DesCreate : string -> M ptr;
  Abc_DesFindTopLevelModels : ptr -> M Z;
  Abc_DesFree : ptr -> ptr -> M unit;
  Abc_NtkCheckRead : ptr -> M Z;
  Abc_NtkIsAcyclicHierarchy : ptr -> M Z;
  Extra_UtilStrsav : string -> M (option string);
  Hop_ManStop : ptr -> M unit;
  AbcMini__Io_MvAlloc : M ptr;
  AbcMini__Io_MvFree : ptr -> M unit;
  AbcMini__Io_MvReadPreparse : ptr -> M unit;
  AbcMini__Io_MvReadInterfaces : ptr -> M Z;
  AbcMini__Io_MvParse : ptr -> M ptr;
}.

Inductive AbcResult : Type :=
| ABC_RESULT_OK
| ABC_RESULT_ERROR.

(** ** The importer ([AbcMiniReadBlif])

    The stages are written over the element accessor [entry_at], which the
    importer below instantiates with [vec_entry_at] as the source does; this
    way what a stage does with the pointers it gets can also be stated for an
    accessor that hands out the stored entries.  [debug], [this_file] and
    [this_function] are the build's ABC_MINI_EMIT_DEBUG_INFO and what
    [std::source_location] reports inside [AbcMiniReadBlif]. *)

Section Importer.
Context {lib : AbcLibrary}.
Variable entry_at : ptr -> Z -> M ptr.
Variable debug : bool.
Variables this_file this_function : string.

Definition here (l : Z) : source_location := mkLoc this_file this_function l.

(* char filename[] = "input.blif"; *)
Definition input_filename : string := "input.blif".

(* design->modules->size *)
Definition modules_size (design : ptr) : M Z :=
  d <- load_des design ;;
  v <- load_vec (modules d) ;;
  ret (size v).

(* lines 303-316: manager set-up and the three parser passes *)
Definition run_parser (manager : ptr) : M ptr :=
  m <- load_man manager ;;
  (* the four assignments to _unused_is_blifmv, _unused_use_reset,
     filename and buffer *)
  store_man manager (mkMan 0 0 None None (man_design m) (error m)) ;;;
  design <- Abc_DesCreate "" ;;
  m <- load_man manager ;;
  d <- load_des (man_design m) ;;
  let func_man := _unused_func_man d in
  Hop_ManStop func_man ;;;
  m <- load_man manager ;;
  set_des_func_man (man_design m) Null ;;;
  AbcMini__Io_MvReadPreparse manager ;;;
  r <- AbcMini__Io_MvReadInterfaces manager ;;
  if negb (r =? 0) then AbcMini__Io_MvParse manager else ret design.

(* lines 317-319 *)
Definition report_parse_error (manager : ptr) : M unit :=
  m <- load_man manager ;;
  if negb (String.eqb (error m) "") then emit_fault debug (here 318) (error m) []
  else ret tt.

(* lines 324-328: the body of the loop over the modules *)
Definition check_network (design : ptr) (i : Z) : M unit :=
  d <- load_des design ;;
  network <- entry_at (modules d) i ;;
  ok <- Abc_NtkCheckRead network ;;
  if ok =? 0 then
    nw <- load_ntk network ;;
    emit_fault debug (here 326) "network check has failed for {}"
               [arg_str (ntk_name nw)] ;;;
    Abc_DesFree design Null
  else ret tt.

(* lines 323-329: the per-network structural check *)
Fixpoint check_networks (fuel : nat) (design : ptr) (i : Z) : M unit :=
  match fuel with
  | O => stop OutOfFuel
  | S fuel =>
      n <- modules_size design ;;
      if i <? wrap_uint n then
        check_network design i ;;;
        check_networks fuel design (wrap_uint (i + 1))
      else ret tt
  end.

(* lines 332-343: the scan for modules named EXDC *)
Fixpoint exdc_scan (fuel : nat) (design network : ptr) (i : Z) : M unit :=
  match fuel with
  | O => stop OutOfFuel
  | S fuel =>
      n <- modules_size design ;;
      if i <? wrap_uint n then
        d <- load_des design ;;
        other_network <- entry_at (modules d) i ;;
        other <- load_ntk other_network ;;
        if String.eqb (ntk_name other) "EXDC" then
          nw <- load_ntk network ;;
          assertion (bool_decide (exdc_network nw = Null)) ;;;
          set_ntk_exdc network other_network ;;;
          d <- load_des design ;;
          vec_remove (modules d) other_network ;;;
          set_ntk_design other_network Null ;;;
          (* --i, then the ++i of the for statement *)
          exdc_scan fuel design network (wrap_uint (wrap_uint (i - 1) + 1))
        else
          exdc_scan fuel design other_network (wrap_uint (i + 1))
      else ret tt
  end.

(* lines 330-344 *)
Definition extract_exdc (fuel : nat) (design : ptr) : M unit :=
  n <- modules_size design ;;
  if 1 <? n then
    d <- load_des design ;;
    network <- entry_at (modules d) 0 ;;
    exdc_scan fuel design network 1
  else ret tt.

(* lines 345-351: the root is the first top-level module *)
Definition select_root (design : ptr) : M ptr :=
  n_root_modules <- Abc_DesFindTopLevelModels design ;;
  d <- load_des design ;;
  network <- entry_at (top_level_modules d) 0 ;;
  (if 1 <? n_root_modules then
     d <- load_des design ;;
     tops <- load_vec (top_level_modules d) ;;
     nw <- load_ntk network ;;
     emit_fault debug (here 348)
       "warning: the design has {} root-level modules -- the first one ({}) will be used"
       [arg_int (size tops); arg_str (ntk_name nw)]
   else ret tt) ;;;
  ret network.

(* lines 352-364: [Some r] stands for [return r] *)
Definition link_root (design network : ptr) : M (option AbcResult) :=
  set_ntk_design network design ;;;
  set_des_func_man design Null ;;;
  n <- modules_size design ;;
  assertion (0 <? n) ;;;
  if n =? 1 then
    Abc_DesFree design network ;;;
    set_ntk_design network Null ;;;
    spec <- Extra_UtilStrsav input_filename ;;
    set_ntk_spec network spec ;;;
    ret None
  else
    acyclic <- Abc_NtkIsAcyclicHierarchy network ;;
    if acyclic =? 0 then
      nw <- load_ntk network ;;
      emit_fault debug (here 361) "network ({}) hierarchy is not acyclic"
                 [arg_str (ntk_name nw)] ;;;
      ret (Some ABC_RESULT_ERROR)
    else ret None.

(* lines 365-367 *)
Definition stamp_spec (network : ptr) : M unit :=
  nw <- load_ntk network ;;
  match _unused_spec nw with
  | None => spec <- Extra_UtilStrsav input_filename ;; set_ntk_spec network spec
  | Some _ => ret tt
  end.

(* lines 369-372 *)
Fixpoint ltl_scan (fuel : nat) (network : ptr) (i : Z) : M unit :=
  match fuel with
  | O => stop OutOfFuel
  | S fuel =>
      st <- get ;;
      g <- load_vec (vGlobalLtlArray st) ;;
      if i <? wrap_uint (size g) then
        ltl_property <- entry_at (vGlobalLtlArray st) i ;;
        nw <- load_ntk network ;;
        vec_push (_unused_ltl_properties nw) ltl_property ;;;
        ltl_scan fuel network (wrap_uint (i + 1))
      else ret tt
  end.

(* lines 368-374 *)
Definition drain_ltl (fuel : nat) (network : ptr) : M unit :=
  fresh <- vec_alloc 100 ;;
  (st <- get ;; put (set_global fresh st)) ;;;
  ltl_scan fuel network 0 ;;;
  st <- get ;;
  g <- load_vec (vGlobalLtlArray st) ;;
  match array g with Some b => free b | None => ret tt end ;;;
  match vGlobalLtlArray st with
  | Null => ret tt
  | PVec b => free b
  | _ => stop (Undefined WrongObject)
  end.

(* lines 345-376 *)
Definition finish_import (fuel : nat) (design OutNetwork : ptr) : M AbcResult :=
  network <- select_root design ;;
  r <- link_root design network ;;
  match r with
  | Some result => ret result
  | None =>
      stamp_spec network ;;;
      drain_ltl fuel network ;;;
      store_handle OutNetwork network ;;;
      ret ABC_RESULT_OK
  end.

(* lines 302-376, between the construction of [manager] and its
   destruction *)
Definition import_body (fuel : nat) (manager OutNetwork : ptr) : M AbcResult :=
  design <- run_parser manager ;;
  report_parse_error manager ;;;
  if bool_decide (design = Null) then ret ABC_RESULT_ERROR
  else
    check_networks fuel design 0 ;;;
    extract_exdc fuel design ;;;
    finish_import fuel design OutNetwork.

(* lines 297-377; the loops of the body run on [fuel] *)
Definition ReadBlif (fuel : nat) (Text : option string) (OutNetwork : ptr)
    : M AbcResult :=
  assertion (bool_decide (Text <> None)) ;;;
  assertion (bool_decide (OutNetwork = Null)) ;;;
  store_handle OutNetwork Null ;;;
  manager <- AbcMini__Io_MvAlloc ;;
  result <- import_body fuel manager OutNetwork ;;
  (* the destructor of BlifManager: the deleter runs on a non-null pointer *)
  (if bool_decide (manager = Null) then ret tt else AbcMini__Io_MvFree manager) ;;;
  ret result.

End Importer.

(** The importer as the source has it. *)
Definition AbcMiniReadBlif {lib : AbcLibrary} (debug : bool)
    (this_file this_function : string) (fuel : nat)
    (Text : option string) (OutNetwork : ptr) : M AbcResult :=
  ReadBlif vec_entry_at debug this_file this_function fuel Text OutNetwork.

(** ** Reading a vector as a whole *)

(* the entry stored in the slot a slot address designates *)
Definition load_slot (p : ptr) : M ptr :=
  match p with
  | Null => stop (Undefined NullDereference)
  | PSlot b i => read_slot (Some b) i
  | _ => stop (Undefined WrongObject)
  end.

(* Not a function of the source: the entry stored in the slot whose address
   [vec_entry_at] returns, that is [*vec_entry_at(vec, index)].  It serves to
   show what a stage does next when it is given the stored entry. *)
Definition vec_entry_value (vec : ptr) (index : Z) : M ptr :=
  p <- vec_entry_at vec index ;; load_slot p.

Fixpoint read_slots (a : option block) (i : Z) (n : nat) : M (list ptr) :=
  match n with
  | O => ret []
  | S n => p <- read_slot a i ;; l <- read_slots a (i + 1) n ;; ret (p :: l)
  end.

(* the entries of a vector, slots 0 to size - 1 *)
Definition vec_entries (vec : ptr) : M (list ptr) :=
  v <- load_vec vec ;; read_slots (array v) 0 (Z.to_nat (size v)).

(** ** A library to run the importer against

    The bodies of the [extern "C"] functions are not among the sources; the
    instance below follows what the specification says about them.  What a
    text describes is given by three parameters: the names of its modules in
    order, the modules each one instantiates as subcircuits, and which of the
    lowered networks pass the structural check. *)

Section SpecLibrary.
Variable parsed : list string.
Variable instances : string -> list string.
Variable consistent : string -> bool.

(** Modelled from the spec: Abc_DesCreate (base/abc/abcLib.c is not in the
    sources).  A Design is a name with a modules list and a top-level list,
    both empty at first; its function manager is an object of ABC proper. *)
Definition spec_DesCreate (name : string) : M ptr :=
  ms <- vec_alloc 0 ;;
  tops <- vec_alloc 0 ;;
  b <- alloc (ODes (mkDes name (PExt 0) tops ms)) ;;
  ret (PDes b).

(** Modelled from the spec: the names of the Networks of a modules list, for
    Abc_DesFindTopLevelModels. *)
Definition names_of (ps : list ptr) : M (list string) :=
  foldr (fun p acc => n <- load_ntk p ;; l <- acc ;; ret (ntk_name n :: l))
        (ret []) ps.

(** Modelled from the spec: "instantiated as a subcircuit by any other
    Network in the Design", for Abc_DesFindTopLevelModels. *)
Definition instantiated_by_other (names : list string) (name : string) : bool :=
  existsb (fun other => negb (String.eqb other name) &&
                          existsb (String.eqb name) (instances other)) names.

(** Modelled from the spec: Abc_DesFindTopLevelModels.  The top-level
    modules are the Networks never instantiated as a subcircuit by any other
    Network of the Design, in module-list order; the result is their
    number. *)
Definition spec_DesFindTopLevelModels (design : ptr) : M Z :=
  d <- load_des design ;;
  ms <- vec_entries (modules d) ;;
  names <- names_of ms ;;
  tv <- load_vec (top_level_modules d) ;;
  store_vec (top_level_modules d) (mkVec (capacity tv) 0 (array tv)) ;;;
  for_each (fun p => n <- load_ntk p ;;
                     if instantiated_by_other names (ntk_name n) then ret tt
                     else vec_push (top_level_modules d) p) ms ;;;
  tv <- load_vec (top_level_modules d) ;;
  ret (size tv).

(** Modelled from the spec: release of a list with its storage, for
    Abc_DesFree. *)
Definition free_vec (vec : ptr) : M unit :=
  v <- load_vec vec ;;
  match array v with Some b => free b | None => ret tt end ;;;
  match vec with PVec b => free b | _ => stop (Undefined WrongObject) end.

(** Modelled from the spec: Abc_DesFree.  Frees the whole Design, that is
    every Network of the modules list but the one to keep, the two lists and
    the Design itself. *)
Definition spec_DesFree (design network_to_keep : ptr) : M unit :=
  d <- load_des design ;;
  ms <- vec_entries (modules d) ;;
  for_each (fun p => if decide (p = network_to_keep) then ret tt
                     else _ <- load_ntk p ;;
                          match p with PNtk b => free b | _ => ret tt end) ms ;;;
  free_vec (modules d) ;;;
  free_vec (top_level_modules d) ;;;
  match design with PDes b => free b | _ => stop (Undefined WrongObject) end.

(** Modelled from the spec: Abc_NtkCheckRead, the per-network structural
    check; nonzero when the Network is consistent. *)
Definition spec_NtkCheckRead (network : ptr) : M Z :=
  n <- load_ntk network ;;
  ret (if consistent (ntk_name n) then 1 else 0).

(** Modelled from the spec: the depth-first traversal of
    Abc_NtkIsAcyclicHierarchy; [path] holds the modules being visited. *)
Fixpoint acyclic_from (fuel : nat) (path : list string) (name : string) : bool :=
  match fuel with
  | O => false
  | S fuel =>
      negb (existsb (String.eqb name) path) &&
      forallb (acyclic_from fuel (name :: path)) (instances name)
  end.

(** Modelled from the spec: Abc_NtkIsAcyclicHierarchy, a depth-first
    traversal of the subcircuit-instantiation graph from the root that fails
    when it comes back to a module on the current path. *)
Definition spec_NtkIsAcyclicHierarchy (network : ptr) : M Z :=
  n <- load_ntk network ;;
  ret (if acyclic_from (S (length parsed)) [] (ntk_name n) then 1 else 0).

(** Modelled from the spec: AbcMini__Io_MvAlloc (base/io/ioReadBlifMv.c is
    not in the sources).  The manager starts with its own empty Design and an
    empty error message. *)
Definition spec_MvAlloc : M ptr :=
  design <- spec_DesCreate "" ;;
  b <- alloc (OMan (mkMan 0 0 None None design "")) ;;
  ret (PMan b).

(** Modelled from the spec: AbcMini__Io_MvFree, the release of the manager at
    pipeline exit. *)
Definition spec_MvFree (manager : ptr) : M unit :=
  _ <- load_man manager ;;
  match manager with PMan b => free b | _ => stop (Undefined WrongObject) end.

(** Modelled from the spec: AbcMini__Io_MvParse.  Every module of the text is
    lowered into a Network owned by the Design of the manager and collected
    in its modules list; the result is that Design. *)
Definition spec_MvParse (manager : ptr) : M ptr :=
  m <- load_man manager ;;
  d <- load_des (man_design m) ;;
  for_each (fun name =>
              props <- vec_alloc 0 ;;
              b <- alloc (ONtk (mkNtk name None props (man_design m) Null)) ;;
              vec_push (modules d) (PNtk b)) parsed ;;;
  ret (man_design m).

(** Modelled from the spec: Extra_UtilStrsav, a copy of the string. *)
Definition spec_UtilStrsav (s : string) : M (option string) := ret (Some s).

(** Modelled from the spec: Hop_ManStop; the function manager is an object of
    ABC proper and leaves no trace in this state. *)
Definition spec_ManStop (manager : ptr) : M unit := ret tt.

(** Modelled from the spec: AbcMini__Io_MvReadPreparse and
    AbcMini__Io_MvReadInterfaces on a text without errors; the second returns
    nonzero for success. *)
Definition spec_MvReadPreparse (manager : ptr) : M unit := ret tt.
Definition spec_MvReadInterfaces (manager : ptr) : M Z := ret 1.

(** Modelled from the spec: the ABC library as a whole. *)
Definition spec_library : AbcLibrary := {|
  Abc_DesCreate := spec_DesCreate;
  Abc_DesFindTopLevelModels := spec_DesFindTopLevelModels;
  Abc_DesFree := spec_DesFree;
  Abc_NtkCheckRead := spec_NtkCheckRead;
  Abc_NtkIsAcyclicHierarchy := spec_NtkIsAcyclicHierarchy;
  Extra_UtilStrsav := spec_UtilStrsav;
  Hop_ManStop := spec_ManStop;
  AbcMini__Io_MvAlloc := spec_MvAlloc;
  AbcMini__Io_MvFree := spec_MvFree;
  AbcMini__Io_MvReadPreparse := spec_MvReadPreparse;
  AbcMini__Io_MvReadInterfaces := spec_MvReadInterfaces;
  AbcMini__Io_MvParse := spec_MvParse;
|}.
End SpecLibrary.

(** ** Observations used in the statements *)

(* the message a handler gets for the formatted text [m] *)
Definition located (debug : bool) (loc : source_location) (m : string) : string :=
  if debug then
    quote_if_necessary (file_name loc) +:+
      String ":" (quote_if_necessary (function_name loc) +:+
        String ":" (pretty (line loc) +:+ String ":" (String " " (m +:+ ""))))
  else m.

(* the first [n] slots of a storage array, when all of them were written *)
Fixpoint initialized (s : list (option ptr)) (n : nat) {struct n}
    : option (list ptr) :=
  match n, s with
  | O, _ => Some []
  | S n, Some p :: s => cons p <$> initialized s n
  | S _, _ => None
  end.

(** The capacity and the entries of a well-formed vector: [size] lies between
    0 and [capacity], the storage array has [capacity] slots of which the
    first [size] hold the entries, and a vector without storage has capacity
    0. *)
Definition vec_view (vec : ptr) (st : state) : option (Z * list ptr) :=
  match vec with
  | PVec bv =>
      match heap st !! bv with
      | Some (Some (OVec v)) =>
          if (0 <=? size v) && (size v <=? capacity v) && (capacity v <=? INT_MAX)
          then
            match array v with
            | None => if capacity v =? 0 then Some (0, []) else None
            | Some ba =>
                match heap st !! ba with
                | Some (Some (OArray s)) =>
                    if Z.of_nat (length s) =? capacity v
                    then pair (capacity v) <$> initialized s (Z.to_nat (size v))
                    else None
                | _ => None
                end
            end
          else None
      | _ => None
      end
  | _ => None
  end.

(* the storage block of a vector *)
Definition vec_storage (vec : ptr) (st : state) : option block :=
  match vec with
  | PVec bv =>
      match heap st !! bv with
      | Some (Some (OVec v)) => array v
      | _ => None
      end
  | _ => None
  end.

(* [vec_view] spelled out *)
Definition vec_rep (st : state) (vec : ptr) (cap : Z) (l : list ptr)
    (bv : block) (a : option block) : Prop :=
  vec = PVec bv /\
  heap st !! bv = Some (Some (OVec (mkVec cap (Z.of_nat (length l)) a))) /\
  Z.of_nat (length l) <= cap <= INT_MAX /\
  match a with
  | None => cap = 0
  | Some ba =>
      exists rest,
        heap st !! ba = Some (Some (OArray ((Some <$> l) ++ rest))) /\
        Z.of_nat (length l + length rest) = cap
  end.

(* the state a computation ends in, and its result *)
Definition exec {A} (m : M A) (st : state) : state :=
  match m st with
  | Ret (_, st') => st'
  | Stop _ => st
  end.

Definition result {A} (m : M A) (st : state) : option A :=
  match m st with
  | Ret (a, _) => Some a
  | Stop _ => None
  end.

(* a process that has installed no handler and allocated nothing *)
Definition initial_state : state := mkState [] [default_fault_handler] [] Null.

(** The state after the caller has declared a null handle (block 0) and the
    library has built the manager and lowered the modules of the text.  With
    [spec_library] the Design is block 3, its modules list block 1, and the
    Networks are blocks 6, 9, 11 and 13 in the order of the text. *)
Definition parsed_state (lib : AbcLibrary) : state :=
  exec (_ <- alloc (OHandle Null) ;;
        manager <- AbcMini__Io_MvAlloc ;;
        AbcMini__Io_MvParse manager) initial_state.

(** ** Clients of the fault channel *)

(* a call of a client on the handler list *)
Inductive channel_call : Type :=
| call_install (Handler : AbcMiniFaultHandler)
| call_reset.

Definition run_call (c : channel_call) : M unit :=
  match c with
  | call_install Handler => AbcMiniInstallFaultHandler Handler
  | call_reset => AbcMiniResetFaultHandlers
  end.

(* a list of handlers without the default handlers at its front *)
Fixpoint strip_default (hs : list AbcMiniFaultHandler) : list AbcMiniFaultHandler :=
  match hs with
  | default_fault_handler :: hs => strip_default hs
  | _ => hs
  end.

(** ** Texts used as format strings *)

Definition is_brace (c : ascii) : bool :=
  Ascii.eqb c "{"%char || Ascii.eqb c "}"%char.

(* a text without an opening or closing brace *)
Definition brace_free (s : string) : bool :=
  forallb (fun c => negb (is_brace c)) (list_ascii_of_string s).

Definition begins_with (c : ascii) (s : string) : bool :=
  match s with
  | String c' _ => Ascii.eqb c' c
  | EmptyString => false
  end.

(** ** A library whose parser rejects the text *)

(* manager->error holds [message] *)
Definition set_man_error (manager : ptr) (message : string) : M unit :=
  m <- load_man manager ;;
  store_man manager
    (mkMan (_unused_is_blifmv m) (_unused_use_reset m) (filename m) (buffer m)
           (man_design m) message).

(** Modelled from the spec: a body parse (AbcMini__Io_MvParse) that fails.
    The failure is recorded in the error message of the manager and no Design
    results. *)
Definition spec_MvParse_failing (message : string) (manager : ptr) : M ptr :=
  set_man_error manager message ;;; ret Null.

(** Modelled from the spec: an interface scan (AbcMini__Io_MvReadInterfaces)
    that fails.  The failure is recorded in the error message of the manager
    and the result is zero. *)
Definition spec_MvReadInterfaces_failing (message : string) (manager : ptr) : M Z :=
  set_man_error manager message ;;; ret 0.

(** Modelled from the spec: the library [base] with the two parser passes
    replaced. *)
Definition with_parser (base : AbcLibrary) (interfaces : ptr -> M Z)
    (parse : ptr -> M ptr) : AbcLibrary := {|
  Abc_DesCreate := @Abc_DesCreate base;
  Abc_DesFindTopLevelModels := @Abc_DesFindTopLevelModels base;
  Abc_DesFree := @Abc_DesFree base;
  Abc_NtkCheckRead := @Abc_NtkCheckRead base;
  Abc_NtkIsAcyclicHierarchy := @Abc_NtkIsAcyclicHierarchy base;
  Extra_UtilStrsav := @Extra_UtilStrsav base;
  Hop_ManStop := @Hop_ManStop base;
  AbcMini__Io_MvAlloc := @AbcMini__Io_MvAlloc base;
  AbcMini__Io_MvFree := @AbcMini__Io_MvFree base;
  AbcMini__Io_MvReadPreparse := @AbcMini__Io_MvReadPreparse base;
  AbcMini__Io_MvReadInterfaces := interfaces;
  AbcMini__Io_MvParse := parse;
|}.

(** ** The smoke test ([smoke_test.cpp]) *)

(* the handler of the smoke test, and what it prints on the standard output *)
Definition fault_log : AbcMiniFaultHandler := user_handler 0.

Definition fault_log_output (Reason : string) : string :=
  "ABC MINI ERROR:" +:+ String "010"%char "" +:+ Reason +:+ String "010"%char "".

(* [main]: the local [network] is a handle variable of its own; the result is
   the exit status *)
Definition main {lib : AbcLibrary} (debug : bool)
    (this_file this_function : string) (fuel : nat) : M Z :=
  AbcMiniInstallFaultHandler fault_log ;;;
  network <- alloc (OHandle Null) ;;
  result <- AbcMiniReadBlif debug this_file this_function fuel None
              (PHandle network) ;;
  match result with
  | ABC_RESULT_ERROR => ret 1
  | ABC_RESULT_OK => ret 0
  end.

(** ** The importer before the pipeline was filled in ([lib/BlifReader.cpp])

    The body ends at the manager set-up; the rest of the pipeline is compiled
    out and the result is ERROR. *)

Module LibBlifReader.
Section Reader.
Context {lib : AbcLibrary}.

(* lines 104-113 and 189 *)
Definition import_body (manager : ptr) : M AbcResult :=
  m <- load_man manager ;;
  store_man manager (mkMan 0 0 None None (man_design m) (error m)) ;;;
  design <- Abc_DesCreate "" ;;
  m <- load_man manager ;;
  d <- load_des (man_design m) ;;
  let func_man := _unused_func_man d in
  Hop_ManStop func_man ;;;
  m <- load_man manager ;;
  set_des_func_man (man_design m) Null ;;;
  ret ABC_RESULT_ERROR.

(* lines 99-190 *)
Definition AbcMiniReadBlif (Text : option string) (OutNetwork : ptr)
    : M AbcResult :=
  assertion (bool_decide (Text <> None)) ;;;
  assertion (bool_decide (OutNetwork = Null)) ;;;
  store_handle OutNetwork Null ;;;
  manager <- AbcMini__Io_MvAlloc ;;
  result <- import_body manager ;;
  (if bool_decide (manager = Null) then ret tt else AbcMini__Io_MvFree manager) ;;;
  ret result.

End Reader.
End LibBlifReader.

(** * Properties *)

(** ** Stepping through monadic code *)

Lemma bind_ret {A B} (m : M A) (k : A -> M B) st a st' :
  m st = Ret (a, st') -> bind m k st = k a st'.
Proof. intros H. unfold bind. now rewrite H. Qed.

Lemma bind_stop {A B} (m : M A) (k : A -> M B) st f :
  m st = Stop f -> bind m k st = Stop f.
Proof. intros H. unfold bind. now rewrite H. Qed.

Lemma bind_ret_inv {A B} (m : M A) (k : A -> M B) st b st'' :
  bind m k st = Ret (b, st'') ->
  exists a st', m st = Ret (a, st') /\ k a st' = Ret (b, st'').
Proof.
  unfold bind. destruct (m st) as [[a st']|f]; [eauto | discriminate].
Qed.

Lemma state_eta st :
  mkState (heap st) (handlers st) (delivered st) (vGlobalLtlArray st) = st.
Proof. now destruct st. Qed.

(** ** The fault channel *)

Lemma emit_to_delivers debug loc format args m h st :
  format_message format args = Some m ->
  emit_to debug loc format args h st =
    Ret (tt, set_delivered (delivered st ++ [(h, located debug loc m)]) st).
Proof.
  intros Hm. unfold emit_to, located. rewrite Hm.
  destruct debug; reflexivity.
Qed.

Lemma for_each_emit debug loc format args m hs :
  format_message format args = Some m ->
  forall st,
    for_each (emit_to debug loc format args) hs st =
      Ret (tt, set_delivered
                 (delivered st ++ map (fun h => (h, located debug loc m)) hs) st).
Proof.
  intros Hm. induction hs as [|h hs IH]; intros st; simpl.
  - unfold ret. rewrite app_nil_r. unfold set_delivered. now rewrite state_eta.
  - erewrite bind_ret by (apply emit_to_delivers; eassumption).
    rewrite IH. unfold set_delivered; simpl. now rewrite <- app_assoc.
Qed.

Lemma emit_fault_delivers debug loc format args m st :
  format_message format args = Some m ->
  emit_fault debug loc format args st =
    Ret (tt, set_delivered
               (delivered st ++
                  map (fun h => (h, located debug loc m)) (handlers st)) st).
Proof.
  intros Hm. unfold emit_fault, get, bind.
  now apply for_each_emit.
Qed.

Lemma install_on_default Handler st :
  handlers st = [default_fault_handler] ->
  AbcMiniInstallFaultHandler Handler st = Ret (tt, set_handlers [Handler] st).
Proof.
  intros H. unfold AbcMiniInstallFaultHandler, get, put, bind. now rewrite H.
Qed.

Lemma install_appends Handler st :
  handlers st <> [default_fault_handler] ->
  AbcMiniInstallFaultHandler Handler st =
    Ret (tt, set_handlers (handlers st ++ [Handler]) st).
Proof.
  intros H. unfold AbcMiniInstallFaultHandler, get, put, bind.
  destruct (handlers st) as [|h [|h' hs]] eqn:E; simpl; try reflexivity.
  rewrite bool_decide_eq_false_2; [reflexivity|]. intros [= ->]. now apply H.
Qed.

Lemma reset_handlers st :
  AbcMiniResetFaultHandlers st = Ret (tt, set_handlers [default_fault_handler] st).
Proof. reflexivity. Qed.

(** C9.  Registration and fan-out of the fault channel.  On the list
    [[default]] an install replaces slot 0 by the new handler; on any other
    list it appends.  [emit_fault] calls every registered handler in
    registration order with one and the same message.  After two installs
    [h1], [h2] on [[default]] an emit reaches [h1] then [h2]; after a reset an
    emit reaches the default handler only. *)
Theorem fault_channel_fan_out
    (h1 h2 : AbcMiniFaultHandler) (debug : bool) (loc : source_location)
    (format : string) (args : list format_arg) (m : string) (st : state) :
  format_message format args = Some m ->
  h1 <> default_fault_handler ->
  (handlers st = [default_fault_handler] ->
     AbcMiniInstallFaultHandler h1 st = Ret (tt, set_handlers [h1] st)) /\
  (handlers st <> [default_fault_handler] ->
     AbcMiniInstallFaultHandler h2 st =
       Ret (tt, set_handlers (handlers st ++ [h2]) st)) /\
  emit_fault debug loc format args st =
    Ret (tt, set_delivered
               (delivered st ++
                  map (fun h => (h, located debug loc m)) (handlers st)) st) /\
  (handlers st = [default_fault_handler] ->
     (AbcMiniInstallFaultHandler h1 ;;; AbcMiniInstallFaultHandler h2 ;;;
      emit_fault debug loc format args) st =
       Ret (tt, mkState (heap st) [h1; h2]
                  (delivered st ++ [(h1, located debug loc m);
                                    (h2, located debug loc m)])
                  (vGlobalLtlArray st))) /\
  (AbcMiniResetFaultHandlers ;;; emit_fault debug loc format args) st =
    Ret (tt, mkState (heap st) [default_fault_handler]
               (delivered st ++ [(default_fault_handler, located debug loc m)])
               (vGlobalLtlArray st)).
Proof.
  intros Hm Hh1. repeat split.
  - apply install_on_default.
  - apply install_appends.
  - now apply emit_fault_delivers.
  - intros Hd.
    erewrite bind_ret by (now apply install_on_default).
    erewrite bind_ret by (apply install_appends; simpl; congruence).
    erewrite emit_fault_delivers by eassumption. reflexivity.
  - erewrite bind_ret by apply reset_handlers.
    erewrite emit_fault_delivers by eassumption. reflexivity.
Qed.

Lemma fault_channel_fan_out_witness :
  (AbcMiniInstallFaultHandler (user_handler 1) ;;;
   AbcMiniInstallFaultHandler (user_handler 2) ;;;
   emit_fault false (mkLoc "" "" 0) "x" [])
    (mkState [] [default_fault_handler] [] Null) =
  Ret (tt, mkState [] [user_handler 1; user_handler 2]
             [(user_handler 1, "x"%string); (user_handler 2, "x"%string)] Null).
Proof.
  refine (proj1 (proj2 (proj2 (proj2
    (fault_channel_fan_out (user_handler 1) (user_handler 2) false
       (mkLoc "" "" 0) "x" [] "x" (mkState [] [default_fault_handler] [] Null)
       _ _)))) _).
  - reflexivity.
  - discriminate.
  - reflexivity.
Defined.

(** ** The entry checks of the importer *)

(** C4.  What the entry of [AbcMiniReadBlif] does with its two arguments,
    for every library, build and state: the assertion on [Text] fails for a
    null text; the second assertion compares the address [OutNetwork] itself
    with null, so it fails whenever the caller passes the address of a handle;
    and when the caller passes null the assignment through it is a null
    dereference.  No call gets past line 301. *)
Theorem AbcMiniReadBlif_entry {lib : AbcLibrary} (debug : bool)
    (this_file this_function : string) (fuel : nat)
    (Text : option string) (OutNetwork : ptr) (st : state) :
  AbcMiniReadBlif debug this_file this_function fuel Text OutNetwork st =
    match Text, OutNetwork with
    | Some _, Null => Stop (Undefined NullDereference)
    | _, _ => Stop AssertionFailed
    end.
Proof.
  unfold AbcMiniReadBlif, ReadBlif.
  destruct Text as [t|]; [|reflexivity].
  destruct OutNetwork; reflexivity.
Qed.

(** ** The root handed to the later stages *)

Lemma vec_entry_at_result vec index st p st' :
  vec_entry_at vec index st = Ret (p, st') ->
  p = Null \/ exists b, p = PSlot b index.
Proof.
  unfold vec_entry_at. intros H.
  apply bind_ret_inv in H as (v & st1 & _ & H).
  apply bind_ret_inv in H as (u & st2 & _ & H).
  destruct (array v) as [b|].
  - inversion H; subst. right. eauto.
  - destruct (index =? 0); inversion H; subst. now left.
Qed.

Lemma load_ntk_not_network p st :
  p = Null \/ (exists b i, p = PSlot b i) ->
  exists f, load_ntk p st = Stop f.
Proof.
  intros [->|(b & i & ->)]; simpl; unfold stop; eauto.
Qed.

Lemma bind_stops {A B} (m : M A) (k : A -> M B) st :
  (forall a st', m st = Ret (a, st') -> exists f, k a st' = Stop f) ->
  exists f, bind m k st = Stop f.
Proof.
  intros H. unfold bind. destruct (m st) as [[a st']|f]; eauto.
Qed.

Lemma bind_stops_first {A B} (m : M A) (k : A -> M B) st :
  (exists f, m st = Stop f) -> exists f, bind m k st = Stop f.
Proof. intros [f H]. exists f. now apply bind_stop. Qed.

(** C7.  Lines 345 to 376 as the source has them, for every library, build
    and state: the root is what [vec_entry_at] returns for slot 0 of the
    top-level list, that is the address of the slot (or null), and the first
    access to it as a network has no defined behaviour.  So no import, of a
    single module or of several, reaches the statement that stores the root
    in the output handle and returns OK. *)
Theorem finish_import_never_returns {lib : AbcLibrary} (debug : bool)
    (this_file this_function : string) (fuel : nat)
    (design OutNetwork : ptr) (st : state) :
  exists f,
    finish_import vec_entry_at debug this_file this_function fuel
      design OutNetwork st = Stop f.
Proof.
  unfold finish_import.
  apply bind_stops. intros network st1 Hsel.
  assert (Hnet : network = Null \/ exists b i, network = PSlot b i).
  { unfold select_root in Hsel.
    apply bind_ret_inv in Hsel as (n & s1 & _ & Hsel).
    apply bind_ret_inv in Hsel as (d & s2 & _ & Hsel).
    apply bind_ret_inv in Hsel as (nw & s3 & Hat & Hsel).
    apply bind_ret_inv in Hsel as (u & s4 & _ & Hsel).
    inversion Hsel; subst.
    apply vec_entry_at_result in Hat as [->|[b ->]]; eauto. }
  apply bind_stops_first. unfold link_root.
  apply bind_stops_first. unfold set_ntk_design.
  apply bind_stops_first. now apply load_ntk_not_network.
Qed.

(** ** The singleton path, reached with the stored root *)

(** What lines 345 to 376 do for a text of one module when the accessor hands
    out the stored network: the result is OK, the handle holds the root, the
    root has no [design] and carries the file name, and the Design is
    freed. *)
Lemma singleton_import_with_stored_root :
  let lib := spec_library ["m"] (fun _ => []) (fun _ => true) in
  let st := parsed_state lib in
  let run := finish_import vec_entry_value false "" "" 4 (PDes 3%nat) (PHandle 0%nat) in
  result run st = Some ABC_RESULT_OK /\
  heap (exec run st) !! 0%nat = Some (Some (OHandle (PNtk 6%nat))) /\
  heap (exec run st) !! 6%nat =
    Some (Some (ONtk (mkNtk "m" (Some "input.blif") (PVec 5%nat) Null Null))) /\
  heap (exec run st) !! 3%nat = Some None /\
  delivered (exec run st) = [].
Proof. intros lib st run. repeat split; vm_compute; reflexivity. Qed.

(** ** Well-formed vectors *)

Lemma initialized_spec s n l :
  initialized s n = Some l <->
  length l = n /\ exists rest, s = (Some <$> l) ++ rest.
Proof.
  revert s l. induction n as [|n IH]; intros s l; simpl.
  - split.
    + intros [= <-]. split; [reflexivity|]. now exists s.
    + intros [Hl _]. destruct l; [reflexivity|discriminate].
  - destruct s as [|[p|] s].
    + split; [discriminate|]. intros [Hl [rest Hs]].
      destruct l; [discriminate|]. discriminate.
    + destruct (initialized s n) as [l'|] eqn:E; simpl.
      * apply IH in E as [Hl' [rest ->]]. split.
        -- intros [= <-]. simpl. split; [now f_equal|]. now exists rest.
        -- intros [Hl [rest' Hs]]. destruct l as [|q l]; [discriminate|].
           simpl in Hs, Hl. injection Hs as <- Hs. injection Hl as Hl.
           assert (E2 : initialized ((Some <$> l') ++ rest) n = Some l).
           { apply IH. split; [assumption|]. now exists rest'. }
           assert (E1 : initialized ((Some <$> l') ++ rest) n = Some l').
           { apply IH. split; [assumption|]. now exists rest. }
           congruence.
      * split; [discriminate|]. intros [Hl [rest Hs]].
        destruct l as [|q l]; [discriminate|]. simpl in Hs, Hl.
        injection Hs as <- Hs. injection Hl as Hl.
        assert (E2 : initialized s n = Some l).
        { apply IH. split; [assumption|]. now exists rest. }
        congruence.
    + split; [discriminate|]. intros [Hl [rest Hs]].
      destruct l; discriminate.
Qed.

Lemma vec_view_rep vec st cap l :
  vec_view vec st = Some (cap, l) <->
  exists bv a, vec_rep st vec cap l bv a.
Proof.
  unfold vec_view, vec_rep. split.
  - destruct vec as [|bv| | | | | |]; try discriminate.
    destruct (heap st !! bv) as [[[v| | | | |]|]|] eqn:Hv; try discriminate.
    destruct v as [c n a]; simpl.
    destruct (0 <=? n) eqn:H0; [|discriminate].
    destruct (n <=? c) eqn:H1; [|discriminate].
    destruct (c <=? INT_MAX) eqn:H2; [|discriminate]. simpl.
    apply Z.leb_le in H0, H1, H2.
    destruct a as [ba|].
    + destruct (heap st !! ba) as [[[| s | | | |]|]|] eqn:Hs; try discriminate.
      destruct (Z.of_nat (length s) =? c) eqn:H3; [|discriminate].
      apply Z.eqb_eq in H3.
      destruct (initialized s (Z.to_nat n)) as [l'|] eqn:E; [|discriminate].
      simpl. intros [= <- <-].
      apply initialized_spec in E as [Hl [rest ->]].
      exists bv, (Some ba). split; [reflexivity|].
      assert (Z.of_nat (length l') = n) by lia.
      split; [congruence|]. split; [lia|].
      exists rest. split; [exact Hs|].
      rewrite length_app, length_fmap in H3. lia.
    + destruct (c =? 0) eqn:H3; [|discriminate]. apply Z.eqb_eq in H3.
      intros [= <- <-]. exists bv, None. simpl.
      assert (n = 0) by lia. subst c n. unfold INT_MAX.
      repeat split; try assumption; lia.
  - intros (bv & a & -> & Hv & Hr & Ha). rewrite Hv. simpl.
    assert (H0 : (0 <=? Z.of_nat (length l)) = true) by (apply Z.leb_le; lia).
    assert (H1 : (Z.of_nat (length l) <=? cap) = true) by (apply Z.leb_le; lia).
    assert (H2 : (cap <=? INT_MAX) = true) by (apply Z.leb_le; lia).
    rewrite H0, H1, H2. simpl. destruct a as [ba|].
    + destruct Ha as (rest & Hs & Hlen). rewrite Hs.
      rewrite length_app, length_fmap.
      assert (H3 : (Z.of_nat (length l + length rest) =? cap) = true)
        by (apply Z.eqb_eq; lia).
      rewrite H3. rewrite Nat2Z.id.
      assert (E : initialized ((Some <$> l) ++ rest) (length l) = Some l).
      { apply initialized_spec. split; [reflexivity|]. now exists rest. }
      now rewrite E.
    + subst cap. simpl. destruct l; [reflexivity|]. simpl in Hr. lia.
Qed.

(** ** Heap primitives on live blocks *)

Lemma load_live b o st :
  heap st !! b = Some (Some o) -> load b st = Ret (o, st).
Proof. intros H. unfold load. now rewrite H. Qed.

Lemma store_live b o o' st :
  heap st !! b = Some (Some o) ->
  store b o' st = Ret (tt, set_heap (<[b := Some o']> (heap st)) st).
Proof. intros H. unfold store. now erewrite bind_ret by (apply load_live; eassumption). Qed.

Lemma free_live b o st :
  heap st !! b = Some (Some o) ->
  free b st = Ret (tt, set_heap (<[b := None]> (heap st)) st).
Proof. intros H. unfold free. now erewrite bind_ret by (apply load_live; eassumption). Qed.

Lemma load_vec_live bv v st :
  heap st !! bv = Some (Some (OVec v)) -> load_vec (PVec bv) st = Ret (v, st).
Proof. intros H. simpl. now erewrite bind_ret by (apply load_live; eassumption). Qed.

Lemma store_vec_live bv v v' st :
  heap st !! bv = Some (Some (OVec v)) ->
  store_vec (PVec bv) v' st =
    Ret (tt, set_heap (<[bv := Some (OVec v')]> (heap st)) st).
Proof.
  intros H. unfold store_vec.
  erewrite bind_ret by (apply load_vec_live; eassumption).
  now apply store_live with (o := OVec v).
Qed.

Lemma load_array_live ba s st :
  heap st !! ba = Some (Some (OArray s)) -> load_array ba st = Ret (s, st).
Proof. intros H. unfold load_array. now erewrite bind_ret by (apply load_live; eassumption). Qed.

Lemma read_slot_at ba s (i : nat) p st :
  heap st !! ba = Some (Some (OArray s)) ->
  s !! i = Some (Some p) ->
  read_slot (Some ba) (Z.of_nat i) st = Ret (p, st).
Proof.
  intros Hs Hi. unfold read_slot.
  erewrite bind_ret by (apply load_array_live; eassumption).
  pose proof (lookup_lt_Some _ _ _ Hi) as Hlt.
  replace (0 <=? Z.of_nat i) with true by (symmetry; apply Z.leb_le; lia).
  replace (Z.of_nat i <? Z.of_nat (length s)) with true
    by (symmetry; apply Z.ltb_lt; lia).
  simpl. now rewrite Nat2Z.id, Hi.
Qed.

Lemma read_slot_out_of_bounds ba s i st :
  heap st !! ba = Some (Some (OArray s)) ->
  Z.of_nat (length s) <= i ->
  read_slot (Some ba) i st = Stop (Undefined OutOfBounds).
Proof.
  intros Hs Hi. unfold read_slot.
  erewrite bind_ret by (apply load_array_live; eassumption).
  replace (i <? Z.of_nat (length s)) with false
    by (symmetry; apply Z.ltb_ge; lia).
  now rewrite andb_false_r.
Qed.

Lemma write_slot_at ba s (i : nat) p st :
  heap st !! ba = Some (Some (OArray s)) ->
  (i < length s)%nat ->
  write_slot (Some ba) (Z.of_nat i) p st =
    Ret (tt, set_heap (<[ba := Some (OArray (<[i := Some p]> s))]> (heap st)) st).
Proof.
  intros Hs Hi. unfold write_slot.
  erewrite bind_ret by (apply load_array_live; eassumption).
  replace (0 <=? Z.of_nat i) with true by (symmetry; apply Z.leb_le; lia).
  replace (Z.of_nat i <? Z.of_nat (length s)) with true
    by (symmetry; apply Z.ltb_lt; lia).
  simpl. rewrite Nat2Z.id. now apply store_live with (o := OArray s).
Qed.

Lemma wrap_uint_small z : 0 <= z < 4294967296 -> wrap_uint z = z.
Proof. intros H. unfold wrap_uint. now apply Z.mod_small. Qed.

Lemma wrap_int_small z : -2147483648 <= z <= INT_MAX -> wrap_int z = z.
Proof.
  unfold wrap_int, INT_MAX. intros H.
  rewrite Z.mod_small by lia. lia.
Qed.

Lemma wrap_uint_range z : 0 <= wrap_uint z < 4294967296.
Proof. unfold wrap_uint. apply Z.mod_pos_bound. lia. Qed.

(** ** Growth of the dynamic array *)

Lemma vec_alloc_small c st :
  1 <= c <= 7 ->
  vec_alloc c st =
    Ret (PVec (length (heap st)),
         set_heap (heap st ++ [Some (OVec (mkVec 8 0 (Some (S (length (heap st))))));
                               Some (OArray (replicate 8 None))]) st).
Proof.
  intros Hc. unfold vec_alloc.
  replace ((0 <? c) && (c <? 8)) with true
    by (symmetry; apply andb_true_iff; split; apply Z.ltb_lt; lia).
  erewrite bind_ret by reflexivity.
  erewrite bind_ret by reflexivity. simpl.
  erewrite bind_ret.
  2:{ apply store_live with (o := OVec (mkVec 0 0 None)). simpl.
      rewrite lookup_app_l by (rewrite length_app; simpl; lia).
      now rewrite lookup_app_r, Nat.sub_diag by lia. }
  unfold ret, set_heap; simpl. do 3 f_equal.
  rewrite length_app; simpl.
  rewrite <- app_assoc. simpl.
  rewrite insert_app_r_alt by lia. rewrite Nat.sub_diag. simpl.
  now rewrite Nat.add_1_r.
Qed.


Lemma vec_grow_sufficient st vec cap l bv a min_capacity :
  vec_rep st vec cap l bv a ->
  min_capacity <= cap ->
  vec_grow vec min_capacity st = Ret (tt, st).
Proof.
  intros (-> & Hv & _ & _) Hle. unfold vec_grow.
  erewrite bind_ret by (apply load_vec_live; eassumption). simpl.
  now replace (min_capacity <=? cap) with true by (symmetry; apply Z.leb_le; lia).
Qed.

Lemma vec_rep_distinct st vec cap l bv ba :
  vec_rep st vec cap l bv (Some ba) -> bv <> ba.
Proof.
  intros (_ & Hv & _ & rest & Hs & _) ->. rewrite Hv in Hs. discriminate.
Qed.

Lemma vec_grow_spec st vec cap l bv a n :
  vec_rep st vec cap l bv a ->
  cap < n <= INT_MAX ->
  exists st',
    vec_grow vec n st = Ret (tt, st') /\
    vec_rep st' vec n l bv (Some (length (heap st))) /\
    handlers st' = handlers st /\ delivered st' = delivered st /\
    vGlobalLtlArray st' = vGlobalLtlArray st.
Proof.
  intros Hrep Hn. pose proof Hrep as (-> & Hv & Hr & Ha).
  unfold vec_grow.
  erewrite bind_ret by (apply load_vec_live; eassumption). simpl.
  replace (n <=? cap) with false by (symmetry; apply Z.leb_gt; lia).
  unfold realloc_array.
  replace (n <? 0) with false by (symmetry; apply Z.ltb_ge; lia).
  pose proof (lookup_lt_Some _ _ _ Hv) as Hbv.
  destruct a as [ba|].
  - destruct Ha as (rest & Hs & Hlen).
    pose proof (lookup_lt_Some _ _ _ Hs) as Hba.
    assert (Hne : bv <> ba) by (eapply vec_rep_distinct; eassumption).
    erewrite (bind_ret (bind (load_array ba) _)).
    2:{ erewrite bind_ret by (apply load_array_live; eassumption).
        erewrite bind_ret by reflexivity.
        erewrite bind_ret.
        2:{ eapply free_live. simpl. rewrite lookup_app_l by lia. eassumption. }
        reflexivity. }
    erewrite store_vec_live.
    2:{ simpl. rewrite list_lookup_insert_ne by congruence.
        rewrite lookup_app_l by lia. eassumption. }
    eexists. split; [reflexivity|]. simpl.
    split; [|auto].
    split; [reflexivity|]. simpl.
    split.
    { rewrite list_lookup_insert_eq; [reflexivity|].
      rewrite length_insert, length_app. simpl. lia. }
    split; [lia|].
    exists (rest ++ replicate (Z.to_nat n - length ((Some <$> l) ++ rest)) None).
    split.
    + rewrite list_lookup_insert_ne by lia.
      rewrite list_lookup_insert_ne by lia.
      rewrite lookup_app_r by lia. rewrite Nat.sub_diag. simpl.
      rewrite take_ge by (rewrite length_app, length_fmap; lia).
      now rewrite <- app_assoc.
    + rewrite !length_app, length_replicate, length_fmap. lia.
  - subst cap. assert (l = []) by (destruct l; [reflexivity|simpl in Hr; lia]).
    subst l.
    erewrite (bind_ret (bind (ret []) _)) by reflexivity.
    erewrite store_vec_live.
    2:{ simpl. rewrite lookup_app_l by lia. eassumption. }
    eexists. split; [reflexivity|]. simpl.
    split; [|auto].
    split; [reflexivity|]. simpl.
    split.
    { rewrite list_lookup_insert_eq; [reflexivity|].
      rewrite length_app. simpl. lia. }
    split; [lia|].
    exists (replicate (Z.to_nat n) None). split.
    + rewrite list_lookup_insert_ne by lia.
      rewrite lookup_app_r by lia. rewrite Nat.sub_diag. simpl.
      now rewrite take_nil, Nat.sub_0_r.
    + rewrite length_replicate. lia.
Qed.

Lemma vec_push_room st vec cap l bv ba e :
  vec_rep st vec cap l bv (Some ba) ->
  Z.of_nat (length l) < cap ->
  exists st',
    (v <- load_vec vec ;;
     write_slot (array v) (size v) e ;;;
     store_vec vec (mkVec (capacity v) (wrap_int (size v + 1)) (array v))) st
      = Ret (tt, st') /\
    vec_rep st' vec cap (l ++ [e]) bv (Some ba) /\
    handlers st' = handlers st /\ delivered st' = delivered st /\
    vGlobalLtlArray st' = vGlobalLtlArray st.
Proof.
  intros Hrep Hlt. pose proof Hrep as (-> & Hv & Hr & rest & Hs & Hlen).
  assert (Hne : bv <> ba) by (eapply vec_rep_distinct; eassumption).
  pose proof (lookup_lt_Some _ _ _ Hv) as Hbv.
  pose proof (lookup_lt_Some _ _ _ Hs) as Hba.
  erewrite bind_ret by (apply load_vec_live; eassumption). simpl.
  erewrite bind_ret.
  2:{ eapply write_slot_at; [eassumption|].
      rewrite length_app, length_fmap. lia. }
  erewrite store_vec_live.
  2:{ simpl. rewrite list_lookup_insert_ne by congruence. eassumption. }
  eexists. split; [reflexivity|]. unfold set_heap; simpl. split; [|auto].
  split; [reflexivity|].
  rewrite wrap_int_small by (unfold INT_MAX in *; lia).
  simpl. split.
  { rewrite list_lookup_insert_eq by (rewrite length_insert; lia).
    rewrite length_app. simpl. do 4 f_equal. lia. }
  split; [rewrite length_app; simpl; lia|].
  destruct rest as [|r rest]; [simpl in Hlen; lia|].
  exists rest. split.
  - rewrite list_lookup_insert_ne by congruence.
    rewrite list_lookup_insert_eq by lia. do 3 f_equal.
    rewrite insert_app_r_alt by (rewrite length_fmap; lia).
    rewrite length_fmap, Nat.sub_diag. simpl.
    rewrite fmap_app. simpl. now rewrite <- app_assoc.
  - rewrite length_app. simpl in *. lia.
Qed.

Lemma vec_push_spec st vec cap l bv a e :
  vec_rep st vec cap l bv a ->
  (Z.of_nat (length l) = cap -> 16 <= cap -> cap * 2 <= INT_MAX) ->
  exists st' a',
    vec_push vec e st = Ret (tt, st') /\
    vec_rep st' vec
      (if Z.of_nat (length l) =? cap
       then if cap <? 16 then 16 else cap * 2 else cap)
      (l ++ [e]) bv a' /\
    handlers st' = handlers st /\ delivered st' = delivered st /\
    vGlobalLtlArray st' = vGlobalLtlArray st.
Proof.
  intros Hrep Hdouble. pose proof Hrep as (-> & Hv & Hr & Ha).
  unfold vec_push.
  erewrite bind_ret by (apply load_vec_live; eassumption). simpl.
  destruct (Z.of_nat (length l) =? cap) eqn:Hfull.
  - apply Z.eqb_eq in Hfull.
    destruct (cap <? 16) eqn:Hsmall.
    + apply Z.ltb_lt in Hsmall.
      destruct (vec_grow_spec _ _ _ _ _ _ 16 Hrep) as (st1 & Hg & Hrep1 & E1 & E2 & E3);
        [unfold INT_MAX; lia|].
      erewrite bind_ret by eassumption.
      destruct (vec_push_room _ _ _ _ _ _ e Hrep1) as (st2 & Hp & Hrep2 & F1 & F2 & F3);
        [lia|].
      exists st2, (Some (length (heap st))). split; [exact Hp|].
      split; [exact Hrep2|]. repeat split; congruence.
    + apply Z.ltb_ge in Hsmall. specialize (Hdouble Hfull Hsmall).
      rewrite wrap_int_small by lia.
      destruct (vec_grow_spec _ _ _ _ _ _ (cap * 2) Hrep) as (st1 & Hg & Hrep1 & E1 & E2 & E3);
        [lia|].
      erewrite bind_ret by eassumption.
      destruct (vec_push_room _ _ _ _ _ _ e Hrep1) as (st2 & Hp & Hrep2 & F1 & F2 & F3);
        [lia|].
      exists st2, (Some (length (heap st))). split; [exact Hp|].
      split; [exact Hrep2|]. repeat split; congruence.
  - apply Z.eqb_neq in Hfull.
    erewrite bind_ret by reflexivity.
    destruct a as [ba|]; [|simpl in Ha; lia].
    destruct (vec_push_room _ _ _ _ _ _ e Hrep) as (st2 & Hp & Hrep2 & F1 & F2 & F3);
      [lia|].
    exists st2, (Some ba). split; [exact Hp|]. split; [exact Hrep2|]. auto.
Qed.

(** C8.  The growth policy of the dynamic array, on a well-formed vector of
    capacity [cap] with entries [l]: [vec_alloc] with a requested capacity
    from 1 to 7 gives capacity 8; a push on a full vector makes the capacity
    16 when it was below 16 and twice the capacity otherwise (the doubled
    capacity has to fit an [int]); [vec_grow] leaves the state as it is when
    the capacity suffices and otherwise makes [min_capacity] the capacity,
    with the entries kept. *)
Theorem vec_growth_policy (st : state) (vec : ptr) (cap : Z) (l : list ptr)
    (requested min_capacity : Z) (entry : ptr) :
  vec_view vec st = Some (cap, l) ->
  1 <= requested <= 7 ->
  (16 <= cap -> cap * 2 <= INT_MAX) ->
  min_capacity <= INT_MAX ->
  (exists fresh st',
     vec_alloc requested st = Ret (fresh, st') /\
     vec_view fresh st' = Some (8, [])) /\
  (Z.of_nat (length l) = cap ->
   exists st',
     vec_push vec entry st = Ret (tt, st') /\
     vec_view vec st' = Some (if cap <? 16 then 16 else cap * 2, l ++ [entry])) /\
  (min_capacity <= cap -> vec_grow vec min_capacity st = Ret (tt, st)) /\
  (cap < min_capacity ->
   exists st',
     vec_grow vec min_capacity st = Ret (tt, st') /\
     vec_view vec st' = Some (min_capacity, l)).
Proof.
  intros Hview Hreq Hdouble Hmin.
  apply vec_view_rep in Hview as (bv & a & Hrep).
  split; [|split; [|split]].
  - rewrite vec_alloc_small by assumption.
    eexists _, _. split; [reflexivity|].
    apply vec_view_rep. exists (length (heap st)), (Some (S (length (heap st)))).
    split; [reflexivity|]. unfold set_heap; simpl. split.
    { rewrite lookup_app_r by lia. now rewrite Nat.sub_diag. }
    split; [unfold INT_MAX; lia|].
    exists (replicate 8 None). split; [|reflexivity].
    rewrite lookup_app_r by lia.
    now replace (S (length (heap st)) - length (heap st))%nat with 1%nat by lia.
  - intros Hfull.
    destruct (vec_push_spec st vec cap l bv a entry Hrep) as (st' & a' & Hp & Hrep' & _).
    { intros _. exact Hdouble. }
    exists st'. split; [exact Hp|].
    apply vec_view_rep. exists bv, a'.
    now replace (Z.of_nat (length l) =? cap) with true in Hrep'
      by (symmetry; apply Z.eqb_eq; assumption).
  - intros Hle. eapply vec_grow_sufficient; eassumption.
  - intros Hlt.
    destruct (vec_grow_spec st vec cap l bv a min_capacity Hrep) as (st' & Hg & Hrep' & _);
      [lia|].
    exists st'. split; [exact Hg|]. apply vec_view_rep. eauto.
Qed.

Lemma vec_growth_policy_witness :
  let st := mkState
      [Some (OVec (mkVec 8 8 (Some 1%nat)));
       Some (OArray (Some <$> [PExt 1; PExt 2; PExt 3; PExt 4;
                               PExt 5; PExt 6; PExt 7; PExt 8]))]
      [default_fault_handler] [] Null in
  exists st',
    vec_push (PVec 0%nat) (PExt 9) st = Ret (tt, st') /\
    vec_view (PVec 0%nat) st' =
      Some (16, [PExt 1; PExt 2; PExt 3; PExt 4; PExt 5; PExt 6; PExt 7;
                 PExt 8; PExt 9]).
Proof.
  intros st.
  refine (proj1 (proj2
    (vec_growth_policy st (PVec 0%nat) 8
       [PExt 1; PExt 2; PExt 3; PExt 4; PExt 5; PExt 6; PExt 7; PExt 8]
       3 20 (PExt 9) _ _ _ _)) _).
  - reflexivity.
  - lia.
  - unfold INT_MAX. lia.
  - unfold INT_MAX. lia.
  - reflexivity.
Defined.

Lemma write_slot_out_of_bounds ba s i p st :
  heap st !! ba = Some (Some (OArray s)) ->
  Z.of_nat (length s) <= i ->
  write_slot (Some ba) i p st = Stop (Undefined OutOfBounds).
Proof.
  intros Hs Hi. unfold write_slot.
  erewrite bind_ret by (apply load_array_live; eassumption).
  replace (i <? Z.of_nat (length s)) with false
    by (symmetry; apply Z.ltb_ge; lia).
  now rewrite andb_false_r.
Qed.

(** Where the bound on doubling comes from: on a full vector of 1073741824
    entries the product [capacity * 2] does not fit an [int]; with the
    wrap-around it is negative, [vec_grow] finds the capacity sufficient, and
    the entry is written past the end of the storage array. *)
Lemma vec_push_at_int_limit st vec l bv ba entry :
  vec_rep st vec 1073741824 l bv (Some ba) ->
  Z.of_nat (length l) = 1073741824 ->
  vec_push vec entry st = Stop (Undefined OutOfBounds).
Proof.
  intros Hrep Hfull. pose proof Hrep as (-> & Hv & Hr & rest & Hs & Hlen).
  unfold vec_push.
  erewrite bind_ret by (apply load_vec_live; eassumption). simpl.
  rewrite Hfull. change (1073741824 =? 1073741824) with true.
  change (1073741824 <? 16) with false. cbv iota.
  change (wrap_int (1073741824 * 2)) with (-2147483648).
  erewrite bind_ret.
  2:{ eapply vec_grow_sufficient; [exact Hrep|lia]. }
  erewrite bind_ret by (apply load_vec_live; eassumption). simpl.
  rewrite Hfull.
  apply bind_stop. eapply write_slot_out_of_bounds; [eassumption|].
  rewrite length_app, length_fmap. lia.
Qed.

(** ** Access to the entries *)

Lemma vec_entry_at_in_range st vec cap l bv ba i :
  vec_rep st vec cap l bv (Some ba) ->
  0 <= i < Z.of_nat (length l) ->
  vec_entry_at vec i st = Ret (PSlot ba i, st).
Proof.
  intros (-> & Hv & Hr & _) Hi. unfold vec_entry_at.
  erewrite bind_ret by (apply load_vec_live; eassumption). simpl.
  rewrite wrap_uint_small by (unfold INT_MAX in *; lia).
  now replace (i <? Z.of_nat (length l)) with true
    by (symmetry; apply Z.ltb_lt; lia).
Qed.

Lemma vec_entry_at_out_of_range st vec cap l bv a i :
  vec_rep st vec cap l bv a ->
  Z.of_nat (length l) <= i ->
  vec_entry_at vec i st = Stop AssertionFailed.
Proof.
  intros (-> & Hv & Hr & _) Hi. unfold vec_entry_at.
  erewrite bind_ret by (apply load_vec_live; eassumption). simpl.
  rewrite wrap_uint_small by (unfold INT_MAX in *; lia).
  now replace (i <? Z.of_nat (length l)) with false
    by (symmetry; apply Z.ltb_ge; lia).
Qed.

Lemma push_all_spec es : forall st vec cap l bv a,
  vec_rep st vec cap l bv a ->
  Z.of_nat (length l + length es) <= 1073741824 ->
  exists st' cap' a',
    for_each (vec_push vec) es st = Ret (tt, st') /\
    vec_rep st' vec cap' (l ++ es) bv a'.
Proof.
  induction es as [|e es IH]; intros st vec cap l bv a Hrep Hlen.
  - exists st, cap, a. rewrite app_nil_r. now split.
  - simpl in Hlen.
    destruct (vec_push_spec st vec cap l bv a e Hrep) as (st1 & a1 & Hp & Hrep1 & _).
    { unfold INT_MAX. lia. }
    destruct (IH _ _ _ _ _ _ Hrep1) as (st2 & cap2 & a2 & Hall & Hrep2).
    { rewrite length_app. simpl. lia. }
    exists st2, cap2, a2. simpl. erewrite bind_ret by eassumption.
    split; [exact Hall|]. now rewrite <- app_assoc in Hrep2.
Qed.

(** C2.  Two entries pushed on an empty vector: the size is 2 and the
    entries lie in slots 0 and 1, but [vec_entry_at] returns the addresses of
    those slots, not the entries; an index at or past the size fails the
    assertion. *)
Theorem vec_entry_at_returns_slot_address :
  let st0 := mkState [] [default_fault_handler] [] Null in
  exists st,
    (vec <- vec_alloc 0 ;; vec_push vec (PExt 1) ;;; vec_push vec (PExt 2)) st0
      = Ret (tt, st) /\
    vec_view (PVec 0%nat) st = Some (16, [PExt 1; PExt 2]) /\
    vec_entry_at (PVec 0%nat) 0 st = Ret (PSlot 1%nat 0, st) /\
    vec_entry_at (PVec 0%nat) 1 st = Ret (PSlot 1%nat 1, st) /\
    vec_entry_at (PVec 0%nat) 2 st = Stop AssertionFailed.
Proof.
  intros st0. eexists. split; [lazy; reflexivity|].
  repeat split; reflexivity.
Qed.

(** ** Removal *)

(** C3.  Removing an entry that the vector does not hold: the scan index is
    unsigned, so [i >= 0] holds when it has gone below slot 0; the scan reads
    slot 4294967295 of the storage array and the assertion is never
    evaluated to false.  (On an empty vector without storage the first read
    is through a null pointer.) *)
Theorem vec_remove_absent_reads_out_of_bounds :
  let st0 := mkState [] [default_fault_handler] [] Null in
  (vec <- vec_alloc 0 ;; vec_push vec (PExt 1) ;;; vec_remove vec (PExt 2)) st0
    = Stop (Undefined OutOfBounds) /\
  (vec <- vec_alloc 8 ;; vec_remove vec (PExt 2)) st0
    = Stop (Undefined OutOfBounds) /\
  (vec <- vec_alloc 0 ;; vec_remove vec (PExt 2)) st0
    = Stop (Undefined NullDereference).
Proof. intros st0. repeat split; reflexivity. Qed.

Lemma bind_no_assert {A B} (m : M A) (k : A -> M B) st :
  m st <> Stop AssertionFailed ->
  (forall a st', m st = Ret (a, st') -> k a st' <> Stop AssertionFailed) ->
  bind m k st <> Stop AssertionFailed.
Proof.
  intros Hm Hk. unfold bind. destruct (m st) as [[a st']|f]; [now apply Hk|].
  congruence.
Qed.

Lemma load_no_assert b st : load b st <> Stop AssertionFailed.
Proof. unfold load. repeat case_match; congruence. Qed.

Lemma load_vec_no_assert p st : load_vec p st <> Stop AssertionFailed.
Proof.
  destruct p; simpl; unfold stop; try congruence.
  apply bind_no_assert; [apply load_no_assert|].
  intros [] ? _; unfold ret, stop; congruence.
Qed.

Lemma store_no_assert b o st : store b o st <> Stop AssertionFailed.
Proof.
  unfold store. apply bind_no_assert; [apply load_no_assert|]. congruence.
Qed.

Lemma store_vec_no_assert p v st : store_vec p v st <> Stop AssertionFailed.
Proof.
  unfold store_vec. apply bind_no_assert; [apply load_vec_no_assert|].
  intros _ st' _. destruct p; unfold stop; try congruence. apply store_no_assert.
Qed.

Lemma load_array_no_assert b st : load_array b st <> Stop AssertionFailed.
Proof.
  unfold load_array. apply bind_no_assert; [apply load_no_assert|].
  intros [] ? _; unfold ret, stop; congruence.
Qed.

Lemma read_slot_no_assert a i st : read_slot a i st <> Stop AssertionFailed.
Proof.
  unfold read_slot. destruct a; [|unfold stop; congruence].
  apply bind_no_assert; [apply load_array_no_assert|].
  intros s st' _. unfold ret, stop. repeat case_match; congruence.
Qed.

Lemma write_slot_no_assert a i p st : write_slot a i p st <> Stop AssertionFailed.
Proof.
  unfold write_slot. destruct a; [|unfold stop; congruence].
  apply bind_no_assert; [apply load_array_no_assert|].
  intros s st' _. case_match; [apply store_no_assert|unfold stop; congruence].
Qed.

Lemma vec_remove_scan_result fuel a entry : forall i st,
  0 <= i ->
  vec_remove_scan fuel a entry i st <> Stop AssertionFailed /\
  forall r st', vec_remove_scan fuel a entry i st = Ret (r, st') -> 0 <= r.
Proof.
  induction fuel as [|fuel IH]; intros i st Hi; simpl.
  - unfold stop. split; [congruence|discriminate].
  - replace (0 <=? i) with true by (symmetry; apply Z.leb_le; lia).
    unfold bind. pose proof (read_slot_no_assert a i st) as Hr.
    destruct (read_slot a i st) as [[p st1]|f]; [|split; congruence].
    destruct (decide (p = entry)).
    + unfold ret. split; [congruence|]. intros r st' [= <- _]. exact Hi.
    + apply IH. apply wrap_uint_range.
Qed.

Lemma vec_remove_shift_no_assert fuel a sz : forall i st,
  vec_remove_shift fuel a sz i st <> Stop AssertionFailed.
Proof.
  induction fuel as [|fuel IH]; intros i st; simpl.
  - unfold stop. congruence.
  - case_match; [|unfold ret; congruence].
    apply bind_no_assert; [apply read_slot_no_assert|]. intros p st1 _.
    apply bind_no_assert; [apply write_slot_no_assert|]. intros _ st2 _.
    apply IH.
Qed.

(** The assertion of [vec_remove] never fails, whatever the vector and the
    entry. *)
Lemma vec_remove_never_asserts vec entry st :
  vec_remove vec entry st <> Stop AssertionFailed.
Proof.
  unfold vec_remove.
  apply bind_no_assert; [apply load_vec_no_assert|]. intros v st1 _.
  destruct (vec_remove_scan_result (Z.to_nat (wrap_uint (size v - 1)) + 2)
              (array v) entry (wrap_uint (size v - 1)) st1) as [Hna Hres];
    [apply wrap_uint_range|].
  apply bind_no_assert; [exact Hna|]. intros i st2 Hscan.
  apply Hres in Hscan.
  replace (0 <=? i) with true by (symmetry; apply Z.leb_le; lia).
  apply bind_no_assert; [unfold assertion, ret; congruence|]. intros _ st3 _.
  apply bind_no_assert; [apply vec_remove_shift_no_assert|]. intros _ st4 _.
  apply store_vec_no_assert.
Qed.

#[local] Arguments read_slot : simpl never.
#[local] Arguments write_slot : simpl never.
#[local] Arguments wrap_uint : simpl never.
#[local] Arguments wrap_int : simpl never.

Lemma vec_remove_scan_finds ba s entry st (j : nat) :
  heap st !! ba = Some (Some (OArray s)) ->
  s !! j = Some (Some entry) ->
  forall (k fuel : nat),
    (forall m, (j < m <= j + k)%nat ->
               exists p, s !! m = Some (Some p) /\ p <> entry) ->
    (k < fuel)%nat ->
    Z.of_nat (j + k) < 4294967296 ->
    vec_remove_scan fuel (Some ba) entry (Z.of_nat (j + k)) st
      = Ret (Z.of_nat j, st).
Proof.
  intros Hs Hj. induction k as [|k IH]; intros fuel Hskip Hfuel Hrange;
    (destruct fuel as [|fuel]; [lia|]); simpl.
  - replace (0 <=? Z.of_nat (j + 0)) with true by (symmetry; apply Z.leb_le; lia).
    rewrite Nat.add_0_r.
    erewrite bind_ret by (eapply read_slot_at; eassumption).
    now rewrite decide_True by reflexivity.
  - replace (0 <=? Z.of_nat (j + S k)) with true by (symmetry; apply Z.leb_le; lia).
    destruct (Hskip (j + S k)%nat) as (p & Hp & Hne); [lia|].
    erewrite bind_ret by (eapply read_slot_at; eassumption).
    rewrite decide_False by assumption.
    replace (wrap_uint (Z.of_nat (j + S k) - 1)) with (Z.of_nat (j + k))
      by (rewrite wrap_uint_small; lia).
    apply IH; [|lia|lia]. intros m Hm. apply Hskip. lia.
Qed.

Lemma vec_remove_shift_spec ba sz : forall l2 pre x rest fuel st,
  heap st !! ba =
    Some (Some (OArray (pre ++ [Some x] ++ (Some <$> l2) ++ rest))) ->
  sz = Z.of_nat (length pre + 1 + length l2) ->
  sz <= INT_MAX ->
  (length l2 < fuel)%nat ->
  exists y,
    vec_remove_shift fuel (Some ba) sz (Z.of_nat (length pre + 1)) st =
      Ret (tt, set_heap
                 (<[ba := Some (OArray (pre ++ (Some <$> l2) ++ [Some y] ++ rest))]>
                    (heap st)) st).
Proof.
  induction l2 as [|p l2 IH]; intros pre x rest fuel st Hs Hsz Hmax Hfuel;
    (destruct fuel as [|fuel]; [simpl in Hfuel; lia|]); simpl.
  - exists x. simpl in Hsz.
    rewrite wrap_uint_small by (unfold INT_MAX in *; lia).
    replace (Z.of_nat (length pre + 1) <? sz) with false
      by (symmetry; apply Z.ltb_ge; lia).
    unfold ret. simpl in Hs. rewrite list_insert_id by exact Hs.
    unfold set_heap. now rewrite state_eta.
  - simpl in Hsz, Hfuel.
    rewrite wrap_uint_small by (unfold INT_MAX in *; lia).
    replace (Z.of_nat (length pre + 1) <? sz) with true
      by (symmetry; apply Z.ltb_lt; lia).
    erewrite bind_ret.
    2:{ eapply read_slot_at; [eassumption|].
        rewrite lookup_app_r by lia.
        replace (length pre + 1 - length pre)%nat with 1%nat by lia.
        reflexivity. }
    replace (wrap_uint (Z.of_nat (length pre + 1) - 1)) with (Z.of_nat (length pre))
      by (rewrite wrap_uint_small; unfold INT_MAX in *; lia).
    erewrite bind_ret.
    2:{ eapply write_slot_at; [eassumption|].
        rewrite length_app. simpl. lia. }
    replace (wrap_uint (Z.of_nat (length pre + 1) + 1))
      with (Z.of_nat (length (pre ++ [Some p]) + 1))
      by (rewrite wrap_uint_small, length_app; simpl; unfold INT_MAX in *; lia).
    destruct (IH (pre ++ [Some p]) p rest fuel
                (set_heap
                   (<[ba := Some (OArray
                        (<[length pre := Some p]>
                           (pre ++ [Some x] ++ (Some <$> (p :: l2)) ++ rest)))]>
                      (heap st)) st)) as (y & Hshift).
    + unfold set_heap; simpl.
      rewrite list_lookup_insert_eq by (eapply lookup_lt_Some; eassumption).
      do 3 f_equal.
      rewrite insert_app_r_alt by lia. rewrite Nat.sub_diag. simpl.
      now rewrite <- app_assoc.
    + rewrite length_app. simpl. lia.
    + assumption.
    + lia.
    + exists y. rewrite Hshift. unfold set_heap; simpl.
      rewrite list_insert_insert_eq. do 6 f_equal.
      now rewrite <- app_assoc.
Qed.

(** Removing an entry the vector holds: the occurrence with the highest
    index goes, the entries after it move one slot down in order, the size
    drops by one; nothing but the vector and its storage changes. *)
Lemma vec_remove_present st vec cap l1 entry l2 bv ba :
  vec_rep st vec cap (l1 ++ entry :: l2) bv (Some ba) ->
  entry ∉ l2 ->
  exists st',
    vec_remove vec entry st = Ret (tt, st') /\
    vec_rep st' vec cap (l1 ++ l2) bv (Some ba) /\
    length (heap st') = length (heap st) /\
    (forall b, b <> bv -> b <> ba -> heap st' !! b = heap st !! b) /\
    handlers st' = handlers st /\ delivered st' = delivered st /\
    vGlobalLtlArray st' = vGlobalLtlArray st.
Proof.
  intros Hrep Hnotin. pose proof Hrep as (-> & Hv & Hr & rest & Hs & Hlen).
  assert (Hne : bv <> ba) by (eapply vec_rep_distinct; eassumption).
  rewrite length_app in Hv, Hr, Hlen. simpl in Hv, Hr, Hlen.
  unfold vec_remove.
  erewrite bind_ret by (apply load_vec_live; eassumption). simpl.
  replace (wrap_uint (Z.of_nat (length l1 + S (length l2)) - 1))
    with (Z.of_nat (length l1 + length l2))
    by (rewrite wrap_uint_small; unfold INT_MAX in *; lia).
  erewrite bind_ret.
  2:{ eapply vec_remove_scan_finds with (s := (Some <$> l1 ++ entry :: l2) ++ rest).
      - eassumption.
      - rewrite lookup_app_l by (rewrite length_fmap, length_app; simpl; lia).
        rewrite list_lookup_fmap, lookup_app_r by lia.
        now rewrite Nat.sub_diag.
      - intros m Hm.
        destruct (l2 !! (m - length l1 - 1)%nat) as [p|] eqn:Hp.
        2:{ apply lookup_ge_None in Hp. lia. }
        exists p. split.
        + rewrite lookup_app_l by (rewrite length_fmap, length_app; simpl; lia).
          rewrite list_lookup_fmap, lookup_app_r by lia.
          replace (m - length l1)%nat with (S (m - length l1 - 1)) by lia.
          simpl. now rewrite Hp.
        + intros ->. apply Hnotin. eapply list_elem_of_lookup_2. eassumption.
      - lia.
      - unfold INT_MAX in *. lia. }
  replace (0 <=? Z.of_nat (length l1)) with true by (symmetry; apply Z.leb_le; lia).
  erewrite bind_ret by reflexivity.
  replace (wrap_uint (Z.of_nat (length l1) + 1))
    with (Z.of_nat (length (Some <$> l1) + 1))
    by (rewrite length_fmap, wrap_uint_small; unfold INT_MAX in *; lia).
  replace (wrap_uint (Z.of_nat (length l1 + S (length l2))))
    with (Z.of_nat (length l1 + S (length l2)))
    by (rewrite wrap_uint_small; unfold INT_MAX in *; lia).
  destruct (vec_remove_shift_spec ba (Z.of_nat (length l1 + S (length l2)))
              l2 (Some <$> l1) entry rest
              (Z.to_nat (Z.of_nat (length l1 + S (length l2))) + 1) st)
    as (y & Hshift).
  { rewrite Hs. do 3 f_equal. rewrite fmap_app. simpl.
    now rewrite <- app_assoc. }
  { rewrite length_fmap. lia. }
  { lia. }
  { lia. }
  erewrite bind_ret by exact Hshift.
  erewrite store_vec_live.
  2:{ unfold set_heap; simpl. rewrite list_lookup_insert_ne by congruence.
      eassumption. }
  eexists. split; [reflexivity|]. unfold set_heap; simpl.
  pose proof (lookup_lt_Some _ _ _ Hv) as Hbv.
  pose proof (lookup_lt_Some _ _ _ Hs) as Hba.
  split; [|split; [|split]]; simpl.
  - split; [reflexivity|]. simpl. split.
    { rewrite list_lookup_insert_eq by (rewrite length_insert; lia).
      rewrite wrap_int_small by (unfold INT_MAX in *; lia).
      rewrite length_app. do 4 f_equal. lia. }
    split; [rewrite length_app; lia|].
    exists ([Some y] ++ rest). split.
    + rewrite list_lookup_insert_ne by congruence.
      rewrite list_lookup_insert_eq by lia.
      do 3 f_equal. rewrite fmap_app. now rewrite <- app_assoc.
    + rewrite !length_app. simpl. lia.
  - now rewrite !length_insert.
  - intros b Hb1 Hb2. now rewrite !list_lookup_insert_ne by congruence.
  - auto.
Qed.

Lemma vec_alloc_positive c st :
  0 < c ->
  vec_alloc c st =
    Ret (PVec (length (heap st)),
         set_heap
           (heap st ++
              [Some (OVec (mkVec (if c <? 8 then 8 else c) 0
                                 (Some (S (length (heap st))))));
               Some (OArray (replicate (Z.to_nat (if c <? 8 then 8 else c)) None))])
           st).
Proof.
  intros Hc. unfold vec_alloc.
  replace (0 <? c) with true by (symmetry; apply Z.ltb_lt; lia). simpl.
  set (c' := if c <? 8 then 8 else c).
  assert (Hc' : 0 < c') by (subst c'; destruct (c <? 8); lia).
  erewrite bind_ret by reflexivity.
  replace (c' =? 0) with false by (symmetry; apply Z.eqb_neq; lia).
  unfold malloc_array.
  replace (c' <? 0) with false by (symmetry; apply Z.ltb_ge; lia).
  erewrite (bind_ret (b <- alloc _ ;; ret (Some b))) by reflexivity.
  erewrite bind_ret.
  2:{ apply store_live with (o := OVec (mkVec 0 0 None)). simpl.
      rewrite lookup_app_l by (rewrite length_app; simpl; lia).
      now rewrite lookup_app_r, Nat.sub_diag by lia. }
  unfold ret, set_heap; simpl. do 3 f_equal.
  rewrite length_app; simpl.
  rewrite <- app_assoc. simpl.
  rewrite insert_app_r_alt by lia. rewrite Nat.sub_diag. simpl.
  now rewrite Nat.add_1_r.
Qed.

(** ** The deferred LTL properties *)

(** Lines 368 to 374, for every accessor, root and state: the global list is
    replaced by a list allocated on the spot, which is empty, so the loop
    body never runs; the storage and the header of that list are then freed.
    The state afterwards is the state before with two freed blocks added and
    the global pointing at the freed header: no list that existed before,
    neither the one the global pointed to nor the property list of the root,
    has changed. *)
Lemma drain_ltl_drains_nothing (entry_at : ptr -> Z -> M ptr) (fuel : nat)
    (network : ptr) (st : state) :
  drain_ltl entry_at (S fuel) network st =
    Ret (tt, mkState (heap st ++ [None; None]) (handlers st) (delivered st)
               (PVec (length (heap st)))).
Proof.
  unfold drain_ltl.
  erewrite bind_ret by (apply vec_alloc_positive; lia).
  change (100 <? 8) with false. cbv iota.
  set (b := length (heap st)).
  set (v := mkVec 100 0 (Some (S b))).
  set (s := replicate (Z.to_nat 100) None).
  erewrite bind_ret by reflexivity.
  unfold set_global, set_heap; simpl.
  assert (Hb : (heap st ++ [Some (OVec v); Some (OArray s)]) !! b = Some (Some (OVec v))).
  { subst b. now rewrite lookup_app_r, Nat.sub_diag by lia. }
  assert (Hs : (heap st ++ [Some (OVec v); Some (OArray s)]) !! S b
               = Some (Some (OArray s))).
  { subst b. rewrite lookup_app_r by lia.
    now replace (S (length (heap st)) - length (heap st))%nat with 1%nat by lia. }
  erewrite bind_ret.
  2:{ unfold get. erewrite bind_ret by reflexivity. simpl.
      erewrite bind_ret by (apply load_vec_live; exact Hb).
      reflexivity. }
  erewrite bind_ret by reflexivity. simpl.
  erewrite bind_ret by (apply load_vec_live; exact Hb). simpl.
  erewrite bind_ret by (eapply free_live; exact Hs).
  erewrite free_live.
  2:{ unfold set_heap; simpl. rewrite list_lookup_insert_ne by lia. exact Hb. }
  unfold set_heap; simpl. do 3 f_equal.
  subst b. rewrite insert_app_r_alt by lia.
  replace (S (length (heap st)) - length (heap st))%nat with 1%nat by lia.
  rewrite insert_app_r_alt by lia. rewrite Nat.sub_diag. reflexivity.
Qed.

(** C10.  A state in which the global list (block 0) holds one pending
    property and the property list of the root (block 2) is empty.  The
    drain completes, and afterwards the root's list is still empty, the
    pending property is still in the old list, and the global points at the
    freed header of the list allocated at line 368. *)
Theorem drain_ltl_leaves_pending_entry :
  let st := mkState
      [Some (OVec (mkVec 8 1 (Some 1%nat)));
       Some (OArray (Some (PExt 7) :: replicate 7 None));
       Some (OVec (mkVec 0 0 None));
       Some (ONtk (mkNtk "top" None (PVec 2%nat) Null Null))]
      [default_fault_handler] [] (PVec 0%nat) in
  let st' := exec (drain_ltl vec_entry_at 16 (PNtk 3%nat)) st in
  vec_view (vGlobalLtlArray st) st = Some (8, [PExt 7]) /\
  result (drain_ltl vec_entry_at 16 (PNtk 3%nat)) st = Some tt /\
  vec_view (PVec 2%nat) st' = Some (0, []) /\
  vec_view (PVec 0%nat) st' = Some (8, [PExt 7]) /\
  vGlobalLtlArray st' = PVec 4%nat /\
  heap st' !! 4%nat = Some None.
Proof. intros st st'. repeat split; vm_compute; reflexivity. Qed.

(** ** The hierarchy check *)

(** C6.  A text with the modules A and B in which A instantiates itself and
    B: A is the only top-level module and the hierarchy check fails for it.
    The call with the address of a null handle aborts on the assertion of
    line 300.  Past the entry, the stage of lines 345 to 376 takes as the
    root what [vec_entry_at] returns for entry 0 of the top-level list, the
    address of slot 0 of its storage array (block 10), and line 352 assigns
    [design] through it: an access to a network through the address of a
    slot, before the check of line 360 is called; no fault has been
    delivered at that point.  The body as a whole (lines 302 to 376) ends in
    such an access as well.  No run returns ERROR. *)
Theorem cyclic_hierarchy_is_not_reported :
  let lib := spec_library ["A"; "B"]
               (fun m => if String.eqb m "A" then ["A"; "B"] else [])
               (fun _ => true) in
  let st := parsed_state lib in
  let st1 := exec (select_root vec_entry_at false "" "" (PDes 3%nat)) st in
  result (Abc_NtkIsAcyclicHierarchy (PNtk 6%nat)) st = Some 0 /\
  (forall text,
     AbcMiniReadBlif false "" "" 4 (Some text) (PHandle 0%nat) st
       = Stop AssertionFailed) /\
  result (select_root vec_entry_at false "" "" (PDes 3%nat)) st
    = Some (PSlot 10%nat 0) /\
  vec_view (PVec 2%nat) st1 = Some (16, [PNtk 6%nat]) /\
  delivered st1 = [] /\
  set_ntk_design (PSlot 10%nat 0) (PDes 3%nat) st1 = Stop (Undefined WrongObject) /\
  finish_import vec_entry_at false "" "" 4 (PDes 3%nat) (PHandle 0%nat) st
    = Stop (Undefined WrongObject) /\
  (_ <- alloc (OHandle Null) ;;
   manager <- AbcMini__Io_MvAlloc ;;
   import_body vec_entry_at false "" "" 4 manager (PHandle 0%nat))
    initial_state = Stop (Undefined WrongObject).
Proof.
  intros lib st st1.
  split; [vm_compute; reflexivity|].
  split; [intros text; reflexivity|].
  do 5 (split; [vm_compute; reflexivity|]).
  vm_compute. reflexivity.
Qed.

(** ** The structural check *)

(** For every library: when the check fails on the pointer the loop body of
    the source passes to it, the body stops at [network->name], before the
    fault is emitted and before anything is freed. *)
Lemma failed_check_stops_at_network_name {lib : AbcLibrary} (debug : bool)
    (this_file this_function : string) (design network : ptr) (i : Z)
    (d : AbcDesignImpl) (st st1 st2 : state) :
  load_des design st = Ret (d, st) ->
  vec_entry_at (modules d) i st = Ret (network, st1) ->
  Abc_NtkCheckRead network st1 = Ret (0, st2) ->
  exists f,
    check_network vec_entry_at debug this_file this_function design i st
      = Stop f.
Proof.
  intros Hd Hat Hcheck. unfold check_network.
  erewrite bind_ret by exact Hd.
  erewrite bind_ret by exact Hat.
  erewrite bind_ret by exact Hcheck. simpl.
  apply bind_stops_first. apply load_ntk_not_network.
  apply vec_entry_at_result in Hat as [->|[b ->]]; eauto.
Qed.

(** C1.  A text with one module whose lowered network fails the structural
    check.  As the source has it, the network handed to the check is the
    address of slot 0 of the modules list, and the run ends in an access
    through a pointer of the wrong kind.  With an accessor that hands out the
    stored network the loop body emits the fault and frees the Design (block
    3) with its Network (block 6), and then returns to the loop header, which
    reads [design->modules->size] of the freed Design.  Neither run reports
    ERROR. *)
Theorem failed_check_does_not_report_error :
  let lib := spec_library ["bad"] (fun _ => []) (fun _ => false) in
  let st := parsed_state lib in
  result (Abc_NtkCheckRead (PNtk 6%nat)) st = Some 0 /\
  check_networks vec_entry_at false "" "" 4 (PDes 3%nat) 0 st
    = Stop (Undefined WrongObject) /\
  (let st' := exec (check_network vec_entry_value false "" "" (PDes 3%nat) 0) st in
   result (check_network vec_entry_value false "" "" (PDes 3%nat) 0) st = Some tt /\
   delivered st' =
     [(default_fault_handler, "network check has failed for bad"%string)] /\
   heap st' !! 3%nat = Some None /\ heap st' !! 6%nat = Some None) /\
  check_networks vec_entry_value false "" "" 4 (PDes 3%nat) 0 st
    = Stop (Undefined DanglingPointer) /\
  (_ <- alloc (OHandle Null) ;;
   manager <- AbcMini__Io_MvAlloc ;;
   import_body vec_entry_value false "" "" 4 manager (PHandle 0%nat))
    initial_state = Stop (Undefined DanglingPointer).
Proof. intros lib st. repeat split; vm_compute; reflexivity. Qed.

(** ** EXDC extraction *)

(** C5.  A text with the modules M, EXDC and N in this order.  The call with
    the address of a null handle aborts on the assertion of line 300.  Past
    the entry, the scan of lines 330 to 344 finds three modules and obtains
    the candidate and the module at index 1 from [vec_entry_at], which
    leaves the state as it is and returns the addresses of slots 0 and 1 of
    the storage array (block 7); the comparison of line 334 reads the name
    of a network through the address of slot 1.  The scan ends there, before
    the first assignment: the module named EXDC is not detached, and M has
    no [exdc_network].  The body as a whole (lines 302 to 376) ends in such
    an access as well. *)
Theorem exdc_module_is_not_extracted :
  let lib := spec_library ["M"; "EXDC"; "N"] (fun _ => []) (fun _ => true) in
  let st := parsed_state lib in
  vec_view (PVec 1%nat) st = Some (16, [PNtk 6%nat; PNtk 9%nat; PNtk 11%nat]) /\
  result (load_ntk (PNtk 9%nat)) st
    = Some (mkNtk "EXDC" None (PVec 8%nat) (PDes 3%nat) Null) /\
  (forall text,
     AbcMiniReadBlif false "" "" 4 (Some text) (PHandle 0%nat) st
       = Stop AssertionFailed) /\
  modules_size (PDes 3%nat) st = Ret (3, st) /\
  vec_entry_at (PVec 1%nat) 0 st = Ret (PSlot 7%nat 0, st) /\
  vec_entry_at (PVec 1%nat) 1 st = Ret (PSlot 7%nat 1, st) /\
  load_ntk (PSlot 7%nat 1) st = Stop (Undefined WrongObject) /\
  extract_exdc vec_entry_at 8 (PDes 3%nat) st = Stop (Undefined WrongObject) /\
  (_ <- alloc (OHandle Null) ;;
   manager <- AbcMini__Io_MvAlloc ;;
   import_body vec_entry_at false "" "" 4 manager (PHandle 0%nat))
    initial_state = Stop (Undefined WrongObject).
Proof.
  intros lib st.
  do 2 (split; [vm_compute; reflexivity|]).
  split; [intros text; reflexivity|].
  do 5 (split; [vm_compute; reflexivity|]).
  vm_compute. reflexivity.
Qed.

(** * Further properties

    Behaviour of the same code beyond the statements above: the handler
    list under series of calls, the error text of the parser on its way to
    the handlers, the stages of the importer as written, the smoke test, and
    the dynamic array on every well-formed vector. *)

#[local] Arguments vec_remove : simpl never.
#[local] Arguments modules_size : simpl never.
#[local] Arguments set_ntk_exdc : simpl never.
#[local] Arguments set_ntk_design : simpl never.
#[local] Arguments load_ntk : simpl never.
#[local] Arguments load_des : simpl never.

(** ** The handler list under series of calls *)

Lemma install_all_appends hs : forall st h l,
  handlers st = h :: l -> h <> default_fault_handler ->
  for_each AbcMiniInstallFaultHandler hs st =
    Ret (tt, set_handlers (h :: l ++ hs) st).
Proof.
  induction hs as [|x hs IH]; intros st h l Hst Hh; simpl.
  - rewrite app_nil_r, <- Hst. unfold ret, set_handlers. now rewrite state_eta.
  - erewrite bind_ret.
    2:{ apply install_appends. rewrite Hst. congruence. }
    erewrite IH with (h := h) (l := l ++ [x]); [|now simpl; rewrite Hst|assumption].
    unfold set_handlers; simpl. now rewrite <- app_assoc.
Qed.

Lemma install_all_on_default hs : forall st,
  handlers st = [default_fault_handler] ->
  for_each AbcMiniInstallFaultHandler hs st =
    Ret (tt, set_handlers (match strip_default hs with
                           | [] => [default_fault_handler]
                           | l => l
                           end) st).
Proof.
  induction hs as [|x hs IH]; intros st Hst; simpl.
  - rewrite <- Hst. unfold ret, set_handlers. now rewrite state_eta.
  - erewrite bind_ret by (apply install_on_default; assumption).
    destruct x as [|id].
    + rewrite IH by reflexivity. reflexivity.
    + erewrite install_all_appends with (h := user_handler id) (l := []);
        [reflexivity|reflexivity|discriminate].
Qed.

(** X1.  After a reset, a series of installs leaves exactly the handlers
    installed, in order, except that default handlers installed first are
    absorbed: installing on the list that holds only the default handler
    replaces it.  When nothing but default handlers were installed the list
    is the default handler alone.  Nothing else in the state changes. *)
Theorem installs_after_reset (hs : list AbcMiniFaultHandler) (st : state) :
  (AbcMiniResetFaultHandlers ;;; for_each AbcMiniInstallFaultHandler hs) st =
    Ret (tt, set_handlers (match strip_default hs with
                           | [] => [default_fault_handler]
                           | l => l
                           end) st).
Proof.
  erewrite bind_ret by apply reset_handlers.
  rewrite install_all_on_default by reflexivity. reflexivity.
Qed.

Lemma run_call_keeps_a_handler c st :
  handlers st <> [] ->
  exists hs, hs <> [] /\ run_call c st = Ret (tt, set_handlers hs st).
Proof.
  intros Hne. destruct c as [h|]; simpl.
  - destruct (decide (handlers st = [default_fault_handler])) as [Hd|Hd].
    + exists [h]. split; [discriminate|now apply install_on_default].
    + exists (handlers st ++ [h]). split; [|now apply install_appends].
      destruct (handlers st); discriminate.
  - exists [default_fault_handler]. split; [discriminate|apply reset_handlers].
Qed.

Lemma run_calls_keep_a_handler calls : forall st,
  handlers st <> [] ->
  exists hs, hs <> [] /\ for_each run_call calls st = Ret (tt, set_handlers hs st).
Proof.
  induction calls as [|c calls IH]; intros st Hne; simpl.
  - exists (handlers st). split; [assumption|].
    unfold ret, set_handlers. now rewrite state_eta.
  - destruct (run_call_keeps_a_handler c st Hne) as (hs1 & Hne1 & Hc).
    erewrite bind_ret by exact Hc.
    destruct (IH (set_handlers hs1 st)) as (hs2 & Hne2 & Hcs); [assumption|].
    exists hs2. split; [assumption|]. rewrite Hcs. reflexivity.
Qed.

(** X2.  The handler list never becomes empty: after any series of installs
    and resets on a non-empty list at least one handler is registered, so a
    fault with a well-formed format is delivered to at least one handler, and
    to every registered handler in order. *)
Theorem handler_list_never_empty (calls : list channel_call) (debug : bool)
    (loc : source_location) (format : string) (args : list format_arg)
    (m : string) (st : state) :
  handlers st <> [] ->
  format_message format args = Some m ->
  exists h hs,
    for_each run_call calls st = Ret (tt, set_handlers (h :: hs) st) /\
    (for_each run_call calls ;;; emit_fault debug loc format args) st =
      Ret (tt, mkState (heap st) (h :: hs)
                 (delivered st ++ map (fun h => (h, located debug loc m)) (h :: hs))
                 (vGlobalLtlArray st)).
Proof.
  intros Hne Hm.
  destruct (run_calls_keep_a_handler calls st Hne) as (hs & Hhs & Hrun).
  destruct hs as [|h hs]; [congruence|].
  exists h, hs. split; [exact Hrun|].
  erewrite bind_ret by exact Hrun.
  erewrite emit_fault_delivers by eassumption. reflexivity.
Qed.

Lemma handler_list_never_empty_witness :
  exists st',
    (for_each run_call [call_install (user_handler 1); call_reset;
                        call_install default_fault_handler] ;;;
     emit_fault false (mkLoc "" "" 0) "x" []) initial_state = Ret (tt, st') /\
    delivered st' <> [].
Proof.
  destruct (handler_list_never_empty
              [call_install (user_handler 1); call_reset;
               call_install default_fault_handler]
              false (mkLoc "" "" 0) "x" [] "x" initial_state)
    as (h & hs & _ & Hrun).
  - simpl. discriminate.
  - reflexivity.
  - eexists. split; [exact Hrun|]. simpl. discriminate.
Defined.

(** ** Quoting *)

Lemma is_whitespace_quote : is_whitespace "034"%char = false.
Proof. reflexivity. Qed.

Lemma existsb_append f s1 s2 :
  existsb f (list_ascii_of_string (s1 +:+ s2)) =
    existsb f (list_ascii_of_string s1) || existsb f (list_ascii_of_string s2).
Proof.
  induction s1 as [|c s1 IH]; simpl; [reflexivity|].
  now rewrite IH, orb_assoc.
Qed.

Lemma string_length_append s1 s2 :
  String.length (s1 +:+ s2) = (String.length s1 + String.length s2)%nat.
Proof. induction s1 as [|c s1 IH]; simpl; [reflexivity|now rewrite IH]. Qed.

Lemma append_inj_l s1 s2 t : s1 +:+ t = s2 +:+ t -> s1 = s2.
Proof.
  intros H.
  assert (Hlen : String.length s1 = String.length s2).
  { apply (f_equal String.length) in H. rewrite !string_length_append in H. lia. }
  revert s2 H Hlen. induction s1 as [|c s1 IH]; intros [|c2 s2] H Hlen;
    simpl in *; try discriminate; [reflexivity|].
  injection H as -> H. f_equal. apply IH; [assumption|lia].
Qed.

(** X3.  [quote_if_necessary] loses nothing: two texts with the same quoted
    form are the same text. *)
Theorem quote_if_necessary_injective (text1 text2 : string) :
  quote_if_necessary text1 = quote_if_necessary text2 -> text1 = text2.
Proof.
  unfold quote_if_necessary.
  destruct (existsb is_whitespace (list_ascii_of_string text1)) eqn:H1;
    destruct (existsb is_whitespace (list_ascii_of_string text2)) eqn:H2;
    intros H.
  - injection H as H. now apply append_inj_l in H.
  - rewrite <- H in H2. simpl in H2.
    rewrite existsb_append, H1 in H2. discriminate.
  - rewrite H in H1. simpl in H1.
    rewrite existsb_append, H2 in H1. discriminate.
  - exact H.
Qed.

Lemma quote_if_necessary_injective_witness :
  quote_if_necessary "a b" = String "034"%char ("a b" +:+ String "034"%char "") /\
  "a b"%string = "a b"%string.
Proof.
  split; [reflexivity|].
  apply (quote_if_necessary_injective "a b" "a b"). reflexivity.
Defined.

(** ** The parser's error text as a format string *)

Lemma format_message_brace_free s args :
  brace_free s = true -> format_message s args = Some s.
Proof.
  unfold brace_free. induction s as [|c s IH]; intros Hs; [reflexivity|].
  simpl in Hs. apply andb_true_iff in Hs as [Hc Hs].
  unfold is_brace in Hc. apply negb_true_iff, orb_false_iff in Hc as [H1 H2].
  simpl. rewrite H1, H2, IH by assumption. reflexivity.
Qed.

Lemma format_message_single_brace pre c rest :
  brace_free pre = true ->
  is_brace c = true ->
  begins_with c rest = false ->
  format_message (pre +:+ String c rest) [] = None.
Proof.
  unfold brace_free. intros Hpre Hc Hrest.
  induction pre as [|x pre IH].
  - simpl. unfold is_brace in Hc.
    destruct (Ascii.eqb c "{") eqn:Ho.
    + apply Ascii.eqb_eq in Ho. subst c.
      destruct rest as [|c' rest]; [reflexivity|]. simpl in Hrest.
      rewrite Hrest. now destruct (Ascii.eqb c' "}").
    + simpl in Hc. rewrite Hc. apply Ascii.eqb_eq in Hc. subst c.
      destruct rest as [|c' rest]; [reflexivity|]. simpl in Hrest.
      now rewrite Hrest.
  - simpl in Hpre. apply andb_true_iff in Hpre as [Hx Hpre].
    unfold is_brace in Hx. apply negb_true_iff, orb_false_iff in Hx as [H1 H2].
    simpl. rewrite H1, H2, IH by assumption. reflexivity.
Qed.

(** X4.  Lines 317 to 319 on an error text without braces: every registered
    handler gets the text of the parser as it is (behind the location prefix
    in a debug build), and nothing else changes. *)
Theorem parse_error_is_reported_verbatim (debug : bool)
    (this_file this_function : string) (manager : ptr) (m : BlifManagerImpl)
    (st : state) :
  load_man manager st = Ret (m, st) ->
  error m <> "" ->
  brace_free (error m) = true ->
  report_parse_error debug this_file this_function manager st =
    Ret (tt, set_delivered
               (delivered st ++
                  map (fun h => (h, located debug (here this_file this_function 318)
                                      (error m)))
                      (handlers st)) st).
Proof.
  intros Hm Hne Hfree. unfold report_parse_error.
  erewrite bind_ret by exact Hm.
  replace (error m =? "")%string with false
    by (symmetry; now apply String.eqb_neq).
  simpl. apply emit_fault_delivers. now apply format_message_brace_free.
Qed.

Lemma parse_error_is_reported_verbatim_witness :
  let st := mkState [Some (OMan (mkMan 0 0 None None Null "line 3: unknown directive"))]
                    [user_handler 1; user_handler 2] [] Null in
  report_parse_error false "" "" (PMan 0%nat) st =
    Ret (tt, set_delivered
               [(user_handler 1, "line 3: unknown directive"%string);
                (user_handler 2, "line 3: unknown directive"%string)] st).
Proof.
  intros st.
  apply (parse_error_is_reported_verbatim false "" "" (PMan 0%nat)
           (mkMan 0 0 None None Null "line 3: unknown directive") st).
  - reflexivity.
  - simpl. discriminate.
  - reflexivity.
Defined.

(** X5.  Lines 317 to 319 pass the error text of the parser to [emit_fault]
    as the format string.  A text with an opening or closing brace that is
    not doubled (here: the first brace of the text, not followed by the same
    brace) is not a valid format string: [std::vformat] throws
    [std::format_error] before any handler is called. *)
Theorem parse_error_with_brace_throws (debug : bool)
    (this_file this_function : string) (manager : ptr) (m : BlifManagerImpl)
    (pre rest : string) (c : ascii) (st : state) :
  load_man manager st = Ret (m, st) ->
  handlers st <> [] ->
  error m = pre +:+ String c rest ->
  brace_free pre = true ->
  is_brace c = true ->
  begins_with c rest = false ->
  report_parse_error debug this_file this_function manager st = Stop FormatError.
Proof.
  intros Hm Hh He Hpre Hc Hrest. unfold report_parse_error.
  erewrite bind_ret by exact Hm.
  replace (error m =? "")%string with false.
  2:{ symmetry. apply String.eqb_neq. rewrite He. now destruct pre. }
  simpl. unfold emit_fault. erewrite bind_ret by reflexivity.
  destruct (handlers st) as [|h hs]; [congruence|].
  simpl. apply bind_stop. unfold emit_to.
  rewrite He, format_message_single_brace by assumption. reflexivity.
Qed.

Lemma parse_error_with_brace_throws_witness :
  report_parse_error false "" "" (PMan 0%nat)
    (mkState [Some (OMan (mkMan 0 0 None None Null "unexpected token {x"))]
             [default_fault_handler] [] Null) = Stop FormatError.
Proof.
  apply (parse_error_with_brace_throws false "" "" (PMan 0%nat)
           (mkMan 0 0 None None Null "unexpected token {x")
           "unexpected token " "x" "{"%char).
  - reflexivity.
  - simpl. discriminate.
  - reflexivity.
  - reflexivity.
  - reflexivity.
  - reflexivity.
Defined.

(** ** A text the parser rejects, and a design without modules *)

(** X6.  A text the parser rejects (the parser passes return a null design):
    the body of the importer returns ERROR at line 321, the state is the one
    the parser left with the error text delivered to every handler when it is
    not empty, and nothing after line 321 runs: the output handle is not
    written.  Holds for every accessor and library. *)
Theorem parse_failure_returns_error {lib : AbcLibrary}
    (entry_at : ptr -> Z -> M ptr) (debug : bool)
    (this_file this_function : string) (fuel : nat)
    (manager OutNetwork : ptr) (m : BlifManagerImpl) (msg : string)
    (st st1 : state) :
  run_parser manager st = Ret (Null, st1) ->
  load_man manager st1 = Ret (m, st1) ->
  format_message (error m) [] = Some msg ->
  import_body entry_at debug this_file this_function fuel manager OutNetwork st =
    Ret (ABC_RESULT_ERROR,
         if (error m =? "")%string then st1
         else set_delivered
                (delivered st1 ++
                   map (fun h => (h, located debug (here this_file this_function 318)
                                       msg))
                       (handlers st1)) st1).
Proof.
  intros Hrun Hm Hmsg. unfold import_body.
  erewrite bind_ret by exact Hrun.
  unfold report_parse_error.
  destruct (error m =? "")%string eqn:Hempty.
  - erewrite (bind_ret (bind (load_man manager) _)); [reflexivity|].
    erewrite bind_ret by exact Hm. now rewrite Hempty.
  - erewrite (bind_ret (bind (load_man manager) _)); [reflexivity|].
    erewrite bind_ret by exact Hm. rewrite Hempty. simpl.
    apply emit_fault_delivers. exact Hmsg.
Qed.

Lemma parse_failure_returns_error_witness :
  let lib := with_parser (spec_library [] (fun _ => []) (fun _ => true))
               spec_MvReadInterfaces
               (spec_MvParse_failing "line 2: no such model") in
  exists st',
    (_ <- alloc (OHandle Null) ;;
     manager <- AbcMini__Io_MvAlloc ;;
     import_body vec_entry_at false "" "" 4 manager (PHandle 0%nat)) initial_state
      = Ret (ABC_RESULT_ERROR, st') /\
    delivered st' = [(default_fault_handler, "line 2: no such model"%string)] /\
    heap st' !! 0%nat = Some (Some (OHandle Null)).
Proof.
  intros lib.
  set (st0 := exec (_ <- alloc (OHandle Null) ;; AbcMini__Io_MvAlloc) initial_state).
  eexists. split; [|split].
  - change ((_ <- alloc (OHandle Null) ;;
             manager <- AbcMini__Io_MvAlloc ;;
             import_body vec_entry_at false "" "" 4 manager (PHandle 0%nat))
              initial_state)
      with (import_body vec_entry_at false "" "" 4 (PMan 4%nat) (PHandle 0%nat) st0).
    apply (parse_failure_returns_error vec_entry_at false "" "" 4 (PMan 4%nat)
             (PHandle 0%nat)
             (mkMan 0 0 None None (PDes 3%nat) "line 2: no such model")
             "line 2: no such model" st0
             (exec (run_parser (PMan 4%nat)) st0)).
    + reflexivity.
    + reflexivity.
    + reflexivity.
  - reflexivity.
  - reflexivity.
Defined.

(** X7.  The design that lines 303 to 316 hand on.  When the interface scan
    returns zero, AbcMini__Io_MvParse is not called and the design is the one
    Abc_DesCreate returned at line 308, in the state the scan left: a failed
    interface scan does not make the design null, so line 320 does not turn
    it into ERROR.  Otherwise the design is the result of
    AbcMini__Io_MvParse. *)
Theorem interface_failure_keeps_created_design {lib : AbcLibrary}
    (manager design : ptr) (st st' : state) :
  run_parser manager st = Ret (design, st') ->
  exists r s s',
    AbcMini__Io_MvReadInterfaces manager s = Ret (r, s') /\
    if r =? 0
    then s' = st' /\ exists s0 s0', Abc_DesCreate "" s0 = Ret (design, s0')
    else AbcMini__Io_MvParse manager s' = Ret (design, st').
Proof.
  unfold run_parser. intros H.
  apply bind_ret_inv in H as (m0 & s1 & _ & H).
  apply bind_ret_inv in H as (_ & s2 & _ & H).
  apply bind_ret_inv in H as (created & s3 & Hcreate & H).
  apply bind_ret_inv in H as (m1 & s4 & _ & H).
  apply bind_ret_inv in H as (d & s5 & _ & H).
  apply bind_ret_inv in H as (_ & s6 & _ & H).
  apply bind_ret_inv in H as (m2 & s7 & _ & H).
  apply bind_ret_inv in H as (_ & s8 & _ & H).
  apply bind_ret_inv in H as (_ & s9 & _ & H).
  apply bind_ret_inv in H as (r & s10 & Hint & H).
  exists r, s9, s10. split; [exact Hint|].
  destruct (r =? 0); simpl in H.
  - injection H as <- <-. split; [reflexivity|]. eauto.
  - exact H.
Qed.

Lemma interface_failure_keeps_created_design_witness :
  let lib := with_parser (spec_library ["m"] (fun _ => []) (fun _ => true))
               (spec_MvReadInterfaces_failing "line 1: bad header")
               (spec_MvParse ["m"]) in
  let st0 := exec (_ <- alloc (OHandle Null) ;; AbcMini__Io_MvAlloc) initial_state in
  exists r s s',
    AbcMini__Io_MvReadInterfaces (PMan 4%nat) s = Ret (r, s') /\
    if r =? 0
    then s' = exec (run_parser (PMan 4%nat)) st0 /\
         exists s0 s0', Abc_DesCreate "" s0 = Ret (PDes 7%nat, s0')
    else AbcMini__Io_MvParse (PMan 4%nat) s'
           = Ret (PDes 7%nat, exec (run_parser (PMan 4%nat)) st0).
Proof.
  intros lib st0.
  apply (interface_failure_keeps_created_design (PMan 4%nat) (PDes 7%nat) st0
           (exec (run_parser (PMan 4%nat)) st0)).
  reflexivity.
Defined.

(** X8.  A design whose top-level list is empty after
    Abc_DesFindTopLevelModels (a design without modules, for one): line 346
    asks [vec_entry_at] for entry 0 of an empty list, the assertion of
    [vec_entry_at] fails and the import aborts; it does not return ERROR and
    never reaches the assertion of line 354. *)
Theorem design_without_top_level_module_fails_assertion {lib : AbcLibrary}
    (debug : bool) (this_file this_function : string) (fuel : nat)
    (design OutNetwork : ptr) (n cap : Z) (d : AbcDesignImpl) (st st1 : state) :
  Abc_DesFindTopLevelModels design st = Ret (n, st1) ->
  load_des design st1 = Ret (d, st1) ->
  vec_view (top_level_modules d) st1 = Some (cap, []) ->
  finish_import vec_entry_at debug this_file this_function fuel design OutNetwork st
    = Stop AssertionFailed.
Proof.
  intros Htops Hd Hview. apply vec_view_rep in Hview as (bv & a & Hrep).
  unfold finish_import. apply bind_stop. unfold select_root.
  erewrite bind_ret by exact Htops.
  erewrite bind_ret by exact Hd.
  apply bind_stop. eapply vec_entry_at_out_of_range; [exact Hrep|]. simpl. lia.
Qed.

Lemma design_without_top_level_module_fails_assertion_witness :
  let lib := with_parser (spec_library ["m"] (fun _ => []) (fun _ => true))
               (spec_MvReadInterfaces_failing "line 1: bad header")
               (spec_MvParse ["m"]) in
  (_ <- alloc (OHandle Null) ;;
   manager <- AbcMini__Io_MvAlloc ;;
   import_body vec_entry_at false "" "" 4 manager (PHandle 0%nat)) initial_state
    = Stop AssertionFailed.
Proof.
  intros lib.
  set (st := exec (_ <- alloc (OHandle Null) ;;
                   manager <- AbcMini__Io_MvAlloc ;;
                   _ <- run_parser manager ;;
                   report_parse_error false "" "" manager) initial_state).
  change ((_ <- alloc (OHandle Null) ;;
           manager <- AbcMini__Io_MvAlloc ;;
           import_body vec_entry_at false "" "" 4 manager (PHandle 0%nat))
            initial_state)
    with (finish_import vec_entry_at false "" "" 4 (PDes 7%nat) (PHandle 0%nat) st).
  apply (design_without_top_level_module_fails_assertion false "" "" 4
           (PDes 7%nat) (PHandle 0%nat) 0 0
           (mkDes "" (PExt 0) (PVec 6%nat) (PVec 5%nat)) st
           (exec (Abc_DesFindTopLevelModels (PDes 7%nat)) st)).
  - reflexivity.
  - reflexivity.
  - reflexivity.
Defined.

(** ** The EXDC scan as written *)

(** X9.  Lines 330 to 344 as written, on a design whose module list is well
    formed and holds two modules or more: the module at index 1 is obtained
    with [vec_entry_at], which is the address of slot 1, and reading its name
    at line 334 is an access to a network through the address of a slot.
    The scan stops there for every library; no module is detached or
    attached. *)
Theorem extract_exdc_reads_through_slot_address {lib : AbcLibrary}
    (fuel : nat) (design : ptr) (d : AbcDesignImpl) (cap : Z) (l : list ptr) (st : state) :
  load_des design st = Ret (d, st) ->
  vec_view (modules d) st = Some (cap, l) ->
  (2 <= length l)%nat ->
  extract_exdc vec_entry_at (S fuel) design st = Stop (Undefined WrongObject).
Proof.
  intros Hd Hview Hlen. apply vec_view_rep in Hview as (bv & a & Hrep).
  pose proof Hrep as (Hvec & Hv & Hr & Ha).
  destruct a as [ba|]; [|lia].
  assert (Hsize : modules_size design st = Ret (Z.of_nat (length l), st)).
  { unfold modules_size. erewrite bind_ret by exact Hd.
    rewrite Hvec. erewrite bind_ret by (apply load_vec_live; exact Hv).
    reflexivity. }
  unfold extract_exdc.
  erewrite bind_ret by exact Hsize.
  replace (1 <? Z.of_nat (length l)) with true by (symmetry; apply Z.ltb_lt; lia).
  erewrite bind_ret by exact Hd.
  erewrite bind_ret by (eapply vec_entry_at_in_range; [exact Hrep|lia]).
  simpl exdc_scan.
  erewrite bind_ret by exact Hsize.
  rewrite wrap_uint_small by (unfold INT_MAX in *; lia).
  replace (1 <? Z.of_nat (length l)) with true by (symmetry; apply Z.ltb_lt; lia).
  erewrite bind_ret by exact Hd.
  erewrite bind_ret by (eapply vec_entry_at_in_range; [exact Hrep|lia]).
  reflexivity.
Qed.

Lemma extract_exdc_reads_through_slot_address_witness :
  let lib := spec_library ["M"; "EXDC"] (fun _ => []) (fun _ => true) in
  extract_exdc vec_entry_at 8 (PDes 3%nat) (parsed_state lib)
    = Stop (Undefined WrongObject).
Proof.
  intros lib.
  apply (extract_exdc_reads_through_slot_address 7 (PDes 3%nat)
           (mkDes "" (PExt 0) (PVec 2%nat) (PVec 1%nat)) 16
           [PNtk 6%nat; PNtk 9%nat] (parsed_state lib)).
  - vm_compute. reflexivity.
  - vm_compute. reflexivity.
  - simpl. lia.
Defined.

(** ** The smoke test and the earlier importer *)

Lemma install_returns Handler st :
  exists hs, AbcMiniInstallFaultHandler Handler st = Ret (tt, set_handlers hs st).
Proof.
  unfold AbcMiniInstallFaultHandler, bind, get, put.
  destruct (_ && _); eauto.
Qed.

(** X11.  The smoke test passes a null text: whatever the library, the build
    and the state it starts in, [main] installs its handler, and the call of
    [AbcMiniReadBlif] aborts on the assertion of line 299.  No exit status,
    neither 0 nor 1, is returned. *)
Theorem smoke_test_aborts {lib : AbcLibrary} (debug : bool)
    (this_file this_function : string) (fuel : nat) (st : state) :
  main debug this_file this_function fuel st = Stop AssertionFailed.
Proof.
  unfold main.
  destruct (install_returns fault_log st) as (hs & Hi).
  erewrite bind_ret by exact Hi.
  erewrite bind_ret by reflexivity.
  reflexivity.
Qed.

(** X12.  The importer of [lib/BlifReader.cpp] has the same two entry
    assertions followed by the write through [OutNetwork]: every call aborts
    on an assertion or, for a text and a null [OutNetwork], writes through a
    null pointer.  Its body after the entry has one return statement, with
    ERROR. *)
Theorem earlier_importer_entry {lib : AbcLibrary}
    (Text : option string) (OutNetwork manager : ptr) (st : state) :
  LibBlifReader.AbcMiniReadBlif Text OutNetwork st =
    match Text, OutNetwork with
    | Some _, Null => Stop (Undefined NullDereference)
    | _, _ => Stop AssertionFailed
    end /\
  forall r st', LibBlifReader.import_body manager st = Ret (r, st') ->
                r = ABC_RESULT_ERROR.
Proof.
  split.
  - destruct Text, OutNetwork; reflexivity.
  - unfold LibBlifReader.import_body. intros r st' H.
    repeat (apply bind_ret_inv in H as (? & ? & _ & H)).
    now injection H as <- _.
Qed.

(** ** More on the dynamic array *)

Lemma vec_rep_storage st vec cap l bv a :
  vec_rep st vec cap l bv a -> vec_storage vec st = a.
Proof. intros (-> & Hv & _). simpl. now rewrite Hv. Qed.

Lemma vec_rep_extend st st' ext vec cap l bv a :
  vec_rep st vec cap l bv a ->
  heap st' = heap st ++ ext ->
  vec_rep st' vec cap l bv a.
Proof.
  intros (-> & Hv & Hr & Ha) Hext. split; [reflexivity|]. rewrite Hext.
  split; [now apply lookup_app_l_Some|]. split; [assumption|].
  destruct a as [ba|]; [|assumption].
  destruct Ha as (rest & Hs & Hlen). exists rest.
  split; [now apply lookup_app_l_Some|assumption].
Qed.

Lemma vec_alloc_zero st :
  vec_alloc 0 st =
    Ret (PVec (length (heap st)),
         set_heap (heap st ++ [Some (OVec (mkVec 0 0 None))]) st).
Proof.
  unfold vec_alloc. simpl.
  erewrite bind_ret by reflexivity.
  erewrite bind_ret by reflexivity.
  erewrite bind_ret.
  2:{ apply store_live with (o := OVec (mkVec 0 0 None)). simpl.
      now rewrite lookup_app_r, Nat.sub_diag by lia. }
  unfold ret, set_heap; simpl. do 3 f_equal.
  rewrite insert_app_r_alt by lia. now rewrite Nat.sub_diag.
Qed.

(** X13.  [vec_alloc] with a capacity from 0 to INT_MAX returns a new, empty,
    well-formed vector in a block of its own.  Its capacity is 0 for a
    request of 0 (and there is no storage array), 8 for a request below 8,
    and the request otherwise.  Every vector that was well formed before is
    the same afterwards, and the handlers, the deliveries and the global list
    are untouched. *)
Theorem vec_alloc_fresh (c : Z) (st : state) :
  0 <= c <= INT_MAX ->
  exists st',
    vec_alloc c st = Ret (PVec (length (heap st)), st') /\
    vec_view (PVec (length (heap st))) st' =
      Some (if c =? 0 then 0 else Z.max c 8, []) /\
    vec_storage (PVec (length (heap st))) st' =
      (if c =? 0 then None else Some (S (length (heap st)))) /\
    (forall vec cap l,
       vec_view vec st = Some (cap, l) -> vec_view vec st' = Some (cap, l)) /\
    handlers st' = handlers st /\ delivered st' = delivered st /\
    vGlobalLtlArray st' = vGlobalLtlArray st.
Proof.
  intros Hc. destruct (Z.eqb_spec c 0) as [->|Hne].
  - eexists. split; [apply vec_alloc_zero|].
    assert (Hrep : vec_rep (set_heap (heap st ++ [Some (OVec (mkVec 0 0 None))]) st)
                     (PVec (length (heap st))) 0 [] (length (heap st)) None).
    { split; [reflexivity|]. simpl. split.
      - now rewrite lookup_app_r, Nat.sub_diag by lia.
      - split; [unfold INT_MAX; lia|reflexivity]. }
    split; [apply vec_view_rep; eauto|].
    split; [eapply vec_rep_storage; exact Hrep|].
    split; [|auto].
    intros vec cap l Hview. apply vec_view_rep in Hview as (bv & a & Hview).
    apply vec_view_rep. exists bv, a. eapply vec_rep_extend; [exact Hview|reflexivity].
  - eexists. split; [apply vec_alloc_positive; lia|].
    set (c' := if c <? 8 then 8 else c).
    assert (Hc' : c' = Z.max c 8) by (subst c'; destruct (Z.ltb_spec c 8); lia).
    assert (Hrep : vec_rep
                     (set_heap (heap st ++
                        [Some (OVec (mkVec c' 0 (Some (S (length (heap st))))));
                         Some (OArray (replicate (Z.to_nat c') None))]) st)
                     (PVec (length (heap st))) c' [] (length (heap st))
                     (Some (S (length (heap st))))).
    { split; [reflexivity|]. simpl. split.
      - now rewrite lookup_app_r, Nat.sub_diag by lia.
      - split; [unfold INT_MAX in *; lia|].
        exists (replicate (Z.to_nat c') None). split.
        + rewrite lookup_app_r by lia.
          now replace (S (length (heap st)) - length (heap st))%nat with 1%nat by lia.
        + rewrite length_replicate. simpl. lia. }
    rewrite <- Hc'.
    split; [apply vec_view_rep; eauto|].
    split; [eapply vec_rep_storage; exact Hrep|].
    split; [|auto].
    intros vec cap l Hview. apply vec_view_rep in Hview as (bv & a & Hview).
    apply vec_view_rep. exists bv, a. eapply vec_rep_extend; [exact Hview|reflexivity].
Qed.

Lemma vec_alloc_fresh_witness :
  exists st',
    vec_alloc 100 initial_state = Ret (PVec 0%nat, st') /\
    vec_view (PVec 0%nat) st' = Some (100, []).
Proof.
  destruct (vec_alloc_fresh 100 initial_state) as (st' & Ha & Hv & _).
  - unfold INT_MAX. lia.
  - exists st'. split; [exact Ha|exact Hv].
Defined.

(** X14.  [vec_alloc] with a negative capacity: the test [capacity > 0]
    leaves it as it is, the size handed to [malloc] is beyond the address
    space so the storage is null, and the vector returned has that negative
    capacity and no storage.  It is not well formed, and the first push on it
    (size 0 differs from the capacity, so nothing grows) writes through the
    null storage pointer. *)
Theorem vec_alloc_negative_capacity (c : Z) (entry : ptr) (st : state) :
  c < 0 ->
  exists st',
    vec_alloc c st = Ret (PVec (length (heap st)), st') /\
    heap st' = heap st ++ [Some (OVec (mkVec c 0 None))] /\
    vec_view (PVec (length (heap st))) st' = None /\
    vec_push (PVec (length (heap st))) entry st' = Stop (Undefined NullDereference).
Proof.
  intros Hc.
  assert (Hl : (heap st ++ [Some (OVec (mkVec c 0 None))]) !! length (heap st)
               = Some (Some (OVec (mkVec c 0 None)))).
  { now rewrite lookup_app_r, Nat.sub_diag by lia. }
  exists (set_heap (heap st ++ [Some (OVec (mkVec c 0 None))]) st).
  split; [|split; [reflexivity|split]].
  - unfold vec_alloc.
    replace (0 <? c) with false by (symmetry; apply Z.ltb_ge; lia). simpl.
    erewrite bind_ret by reflexivity.
    replace (c =? 0) with false by (symmetry; apply Z.eqb_neq; lia).
    unfold malloc_array.
    replace (c <? 0) with true by (symmetry; apply Z.ltb_lt; lia).
    erewrite bind_ret by reflexivity.
    erewrite bind_ret.
    2:{ apply store_live with (o := OVec (mkVec 0 0 None)). simpl.
        now rewrite lookup_app_r, Nat.sub_diag by lia. }
    unfold ret, set_heap; simpl. do 3 f_equal.
    rewrite insert_app_r_alt by lia. now rewrite Nat.sub_diag.
  - unfold vec_view. simpl. rewrite Hl. simpl.
    replace (0 <=? c) with false by (symmetry; apply Z.leb_gt; lia). reflexivity.
  - unfold vec_push.
    erewrite bind_ret by (apply load_vec_live; exact Hl). cbn [size capacity].
    replace (0 =? c) with false by (symmetry; apply Z.eqb_neq; lia).
    erewrite bind_ret by reflexivity.
    erewrite bind_ret by (apply load_vec_live; exact Hl). simpl.
    reflexivity.
Qed.

Lemma vec_alloc_negative_capacity_witness :
  (vec <- vec_alloc (-1) ;; vec_push vec (PExt 1)) initial_state
    = Stop (Undefined NullDereference).
Proof.
  destruct (vec_alloc_negative_capacity (-1) (PExt 1) initial_state)
    as (st' & Ha & _ & _ & Hp); [lia|].
  erewrite bind_ret by exact Ha. exact Hp.
Defined.

(** X15.  [vec_entry_at] on a well-formed vector, for every unsigned index.
    Below the size it leaves the state as it is and returns the address of
    slot [index] of the storage array, and that slot holds the entry at
    [index].  At or past the size the assertion fails. *)
Theorem vec_entry_at_contract (st : state) (vec : ptr) (cap : Z) (l : list ptr)
    (index : Z) :
  vec_view vec st = Some (cap, l) ->
  0 <= index < 4294967296 ->
  match l !! Z.to_nat index with
  | Some entry =>
      exists ba,
        vec_storage vec st = Some ba /\
        vec_entry_at vec index st = Ret (PSlot ba index, st) /\
        load_slot (PSlot ba index) st = Ret (entry, st)
  | None => vec_entry_at vec index st = Stop AssertionFailed
  end.
Proof.
  intros Hview Hi. apply vec_view_rep in Hview as (bv & a & Hrep).
  destruct (l !! Z.to_nat index) as [entry|] eqn:Hl.
  - pose proof (lookup_lt_Some _ _ _ Hl) as Hlt.
    pose proof Hrep as (-> & Hv & Hr & Ha).
    destruct a as [ba|]; [|destruct l; simpl in *; lia].
    exists ba. split; [eapply vec_rep_storage; exact Hrep|]. split.
    + eapply vec_entry_at_in_range; [exact Hrep|lia].
    + destruct Ha as (rest & Hs & _). simpl.
      replace index with (Z.of_nat (Z.to_nat index)) by lia.
      eapply read_slot_at; [exact Hs|].
      rewrite lookup_app_l by (rewrite length_fmap; lia).
      now rewrite list_lookup_fmap, Hl.
  - apply lookup_ge_None in Hl.
    eapply vec_entry_at_out_of_range; [exact Hrep|lia].
Qed.

Lemma vec_entry_at_contract_witness :
  let st := mkState
      [Some (OVec (mkVec 8 2 (Some 1%nat)));
       Some (OArray (Some (PExt 5) :: Some (PExt 6) :: replicate 6 None))]
      [default_fault_handler] [] Null in
  (exists ba,
     vec_storage (PVec 0%nat) st = Some ba /\
     vec_entry_at (PVec 0%nat) 1 st = Ret (PSlot ba 1, st) /\
     load_slot (PSlot ba 1) st = Ret (PExt 6, st)) /\
  vec_entry_at (PVec 0%nat) 2 st = Stop AssertionFailed.
Proof.
  intros st. split.
  - apply (vec_entry_at_contract st (PVec 0%nat) 8 [PExt 5; PExt 6] 1);
      [reflexivity|lia].
  - apply (vec_entry_at_contract st (PVec 0%nat) 8 [PExt 5; PExt 6] 2);
      [reflexivity|lia].
Defined.

Lemma push_all_bounded es : forall st vec cap l bv a,
  vec_rep st vec cap l bv a ->
  Z.of_nat (length l + length es) <= 1073741824 ->
  exists st' cap' a',
    for_each (vec_push vec) es st = Ret (tt, st') /\
    vec_rep st' vec cap' (l ++ es) bv a' /\
    cap <= cap' <= Z.max (Z.max cap 16) (2 * Z.of_nat (length (l ++ es))) /\
    handlers st' = handlers st /\ delivered st' = delivered st /\
    vGlobalLtlArray st' = vGlobalLtlArray st.
Proof.
  induction es as [|e es IH]; intros st vec cap l bv a Hrep Hlen.
  - exists st, cap, a. rewrite app_nil_r. split; [reflexivity|].
    split; [assumption|]. split; [lia|auto].
  - simpl in Hlen.
    destruct (vec_push_spec st vec cap l bv a e Hrep)
      as (st1 & a1 & Hp & Hrep1 & E1 & E2 & E3).
    { unfold INT_MAX. lia. }
    destruct (IH _ _ _ _ _ _ Hrep1)
      as (st2 & cap2 & a2 & Hall & Hrep2 & Hcap & F1 & F2 & F3).
    { rewrite length_app. simpl. lia. }
    exists st2, cap2, a2. simpl. erewrite bind_ret by eassumption.
    split; [exact Hall|]. rewrite <- app_assoc in Hrep2, Hcap. simpl in Hrep2, Hcap.
    split; [exact Hrep2|].
    split; [|repeat split; congruence].
    pose proof Hrep as (_ & _ & Hr & _).
    rewrite length_app in Hcap |- *. simpl in Hcap |- *.
    destruct (Z.eqb_spec (Z.of_nat (length l)) cap);
      destruct (Z.ltb_spec cap 16); lia.
Qed.

(** X16.  Pushing a series of entries on a well-formed vector (up to
    1073741824 entries in all): every push succeeds, the entries are
    appended in the order pushed behind the ones already there, the capacity
    never shrinks, and it stays within the larger of the old capacity, 16 and
    twice the number of entries.  Handlers, deliveries and the global list
    are untouched. *)
Theorem vec_push_appends_in_order (st : state) (vec : ptr) (cap : Z)
    (l es : list ptr) :
  vec_view vec st = Some (cap, l) ->
  Z.of_nat (length l + length es) <= 1073741824 ->
  exists st' cap',
    for_each (vec_push vec) es st = Ret (tt, st') /\
    vec_view vec st' = Some (cap', l ++ es) /\
    cap <= cap' <= Z.max (Z.max cap 16) (2 * Z.of_nat (length (l ++ es))) /\
    handlers st' = handlers st /\ delivered st' = delivered st /\
    vGlobalLtlArray st' = vGlobalLtlArray st.
Proof.
  intros Hview Hlen. apply vec_view_rep in Hview as (bv & a & Hrep).
  destruct (push_all_bounded es st vec cap l bv a Hrep Hlen)
    as (st' & cap' & a' & Hall & Hrep' & Hcap & Hrest).
  exists st', cap'. split; [exact Hall|].
  split; [apply vec_view_rep; eauto|]. split; assumption.
Qed.

Lemma vec_push_appends_in_order_witness :
  exists st' cap',
    (vec <- vec_alloc 0 ;;
     for_each (vec_push vec) [PExt 1; PExt 2; PExt 3]) initial_state
      = Ret (tt, st') /\
    vec_view (PVec 0%nat) st' = Some (cap', [PExt 1; PExt 2; PExt 3]) /\
    0 <= cap' <= 16.
Proof.
  destruct (vec_push_appends_in_order (exec (vec_alloc 0) initial_state)
              (PVec 0%nat) 0 [] [PExt 1; PExt 2; PExt 3])
    as (st' & cap' & Hall & Hview & Hcap & _).
  - reflexivity.
  - simpl. lia.
  - exists st', cap'. split; [|split].
    + erewrite bind_ret by apply vec_alloc_zero. exact Hall.
    + exact Hview.
    + simpl in Hcap. lia.
Defined.

Lemma vec_grow_frame st vec cap l bv a n :
  vec_rep st vec cap l bv a ->
  cap < n <= INT_MAX ->
  exists st',
    vec_grow vec n st = Ret (tt, st') /\
    forall b, b <> bv -> a <> Some b -> (b < length (heap st))%nat ->
              heap st' !! b = heap st !! b.
Proof.
  intros Hrep Hn. pose proof Hrep as (-> & Hv & Hr & Ha).
  unfold vec_grow.
  erewrite bind_ret by (apply load_vec_live; eassumption). simpl.
  replace (n <=? cap) with false by (symmetry; apply Z.leb_gt; lia).
  unfold realloc_array.
  replace (n <? 0) with false by (symmetry; apply Z.ltb_ge; lia).
  pose proof (lookup_lt_Some _ _ _ Hv) as Hbv.
  destruct a as [ba|].
  - destruct Ha as (rest & Hs & Hlen).
    pose proof (lookup_lt_Some _ _ _ Hs) as Hba.
    assert (Hne : bv <> ba) by (eapply vec_rep_distinct; eassumption).
    erewrite (bind_ret (bind (load_array ba) _)).
    2:{ erewrite bind_ret by (apply load_array_live; eassumption).
        erewrite bind_ret by reflexivity.
        erewrite bind_ret.
        2:{ eapply free_live. simpl. rewrite lookup_app_l by lia. eassumption. }
        reflexivity. }
    erewrite store_vec_live.
    2:{ simpl. rewrite list_lookup_insert_ne by congruence.
        rewrite lookup_app_l by lia. eassumption. }
    eexists. split; [reflexivity|]. simpl.
    intros b Hb1 Hb2 Hb3.
    rewrite list_lookup_insert_ne by congruence.
    rewrite list_lookup_insert_ne by congruence.
    now rewrite lookup_app_l by lia.
  - erewrite (bind_ret (bind (ret []) _)) by reflexivity.
    erewrite store_vec_live.
    2:{ simpl. rewrite lookup_app_l by lia. eassumption. }
    eexists. split; [reflexivity|]. simpl.
    intros b Hb1 Hb2 Hb3.
    rewrite list_lookup_insert_ne by congruence.
    now rewrite lookup_app_l by lia.
Qed.

Lemma vec_push_room_frame st vec cap l bv ba e :
  vec_rep st vec cap l bv (Some ba) ->
  Z.of_nat (length l) < cap ->
  exists st',
    (v <- load_vec vec ;;
     write_slot (array v) (size v) e ;;;
     store_vec vec (mkVec (capacity v) (wrap_int (size v + 1)) (array v))) st
      = Ret (tt, st') /\
    forall b, b <> bv -> b <> ba -> heap st' !! b = heap st !! b.
Proof.
  intros Hrep Hlt. pose proof Hrep as (-> & Hv & Hr & rest & Hs & Hlen).
  assert (Hne : bv <> ba) by (eapply vec_rep_distinct; eassumption).
  erewrite bind_ret by (apply load_vec_live; eassumption). simpl.
  erewrite bind_ret.
  2:{ eapply write_slot_at; [eassumption|].
      rewrite length_app, length_fmap. lia. }
  erewrite store_vec_live.
  2:{ simpl. rewrite list_lookup_insert_ne by congruence. eassumption. }
  eexists. split; [reflexivity|]. unfold set_heap; simpl.
  intros b Hb1 Hb2. now rewrite !list_lookup_insert_ne by congruence.
Qed.

Lemma vec_push_frame st vec cap l bv a e :
  vec_rep st vec cap l bv a ->
  (Z.of_nat (length l) = cap -> 16 <= cap -> cap * 2 <= INT_MAX) ->
  exists st',
    vec_push vec e st = Ret (tt, st') /\
    forall b, b <> bv -> a <> Some b -> (b < length (heap st))%nat ->
              heap st' !! b = heap st !! b.
Proof.
  intros Hrep Hdouble. pose proof Hrep as (-> & Hv & Hr & Ha).
  unfold vec_push.
  erewrite bind_ret by (apply load_vec_live; eassumption). simpl.
  destruct (Z.of_nat (length l) =? cap) eqn:Hfull.
  - apply Z.eqb_eq in Hfull.
    assert (Hgrown : forall n, cap < n <= INT_MAX ->
              exists st',
                (vec_grow (PVec bv) n ;;;
                 v <- load_vec (PVec bv) ;;
                 write_slot (array v) (size v) e ;;;
                 store_vec (PVec bv)
                   (mkVec (capacity v) (wrap_int (size v + 1)) (array v))) st
                  = Ret (tt, st') /\
                forall b, b <> bv -> a <> Some b -> (b < length (heap st))%nat ->
                          heap st' !! b = heap st !! b).
    { intros n Hn.
      destruct (vec_grow_spec _ _ _ _ _ _ n Hrep Hn) as (st1 & Hg & Hrep1 & _).
      destruct (vec_grow_frame _ _ _ _ _ _ n Hrep Hn) as (st1' & Hg' & Hf1).
      rewrite Hg in Hg'. injection Hg' as <-.
      destruct (vec_push_room_frame _ _ _ _ _ _ e Hrep1) as (st2 & Hp & Hf2); [lia|].
      exists st2. split; [erewrite bind_ret by exact Hg; exact Hp|].
      intros b Hb1 Hb2 Hb3. rewrite Hf2 by lia. now apply Hf1. }
    destruct (cap <? 16) eqn:Hsmall.
    + apply Z.ltb_lt in Hsmall. apply Hgrown. unfold INT_MAX. lia.
    + apply Z.ltb_ge in Hsmall. specialize (Hdouble Hfull Hsmall).
      rewrite wrap_int_small by lia. apply Hgrown. lia.
  - apply Z.eqb_neq in Hfull.
    erewrite bind_ret by reflexivity.
    destruct a as [ba|]; [|simpl in Ha; lia].
    destruct (vec_push_room_frame _ _ _ _ _ _ e Hrep) as (st2 & Hp & Hf2); [lia|].
    exists st2. split; [exact Hp|].
    intros b Hb1 Hb2 _. apply Hf2; congruence.
Qed.

Lemma vec_view_agree other st st' :
  (forall b, other = PVec b -> heap st' !! b = heap st !! b) ->
  (forall b, vec_storage other st = Some b -> heap st' !! b = heap st !! b) ->
  vec_view other st' = vec_view other st.
Proof.
  intros Hh Hs. destruct other as [|bo| | | | | |]; try reflexivity.
  unfold vec_view, vec_storage in *. rewrite Hh by reflexivity.
  destruct (heap st !! bo) as [[[v| | | | | ]|]|]; try reflexivity.
  destruct (_ && _); [|reflexivity].
  destruct (array v) as [ba|]; [|reflexivity].
  now rewrite Hs by reflexivity.
Qed.

(** X17.  A push on a well-formed vector changes no block that existed
    before other than the header and the storage array of that vector.  So
    every other well-formed vector that does not share its storage array is
    the same afterwards, with the same capacity and entries. *)
Theorem vec_push_leaves_the_rest (st : state) (vec : ptr) (cap : Z)
    (l : list ptr) (entry : ptr) :
  vec_view vec st = Some (cap, l) ->
  (Z.of_nat (length l) = cap -> 16 <= cap -> cap * 2 <= INT_MAX) ->
  exists st',
    vec_push vec entry st = Ret (tt, st') /\
    (forall b, vec <> PVec b -> vec_storage vec st <> Some b ->
               (b < length (heap st))%nat -> heap st' !! b = heap st !! b) /\
    (forall other v,
       vec_view other st = Some v ->
       other <> vec ->
       vec_storage other st = None \/ vec_storage other st <> vec_storage vec st ->
       vec_view other st' = Some v).
Proof.
  intros Hview Hdouble. apply vec_view_rep in Hview as (bv & a & Hrep).
  destruct (vec_push_frame st vec cap l bv a entry Hrep Hdouble) as (st' & Hp & Hf).
  pose proof (vec_rep_storage _ _ _ _ _ _ Hrep) as Hst.
  pose proof Hrep as (-> & Hv & Hr & Ha).
  exists st'. split; [exact Hp|]. split.
  { intros b Hb1 Hb2 Hb3. apply Hf; congruence. }
  intros other [capo lo] Hother Hne Hsep.
  rewrite <- Hother. apply vec_view_agree.
  - intros bo ->. apply vec_view_rep in Hother as (bo' & ao & Ho).
    pose proof Ho as (Heq & Hvo & _). injection Heq as <-.
    apply Hf; [congruence| |eapply lookup_lt_Some; eassumption].
    intros ->. destruct Ha as (rest & Hs & _). congruence.
  - intros ba Hba. apply vec_view_rep in Hother as (bo & ao & Ho).
    rewrite (vec_rep_storage _ _ _ _ _ _ Ho) in Hba, Hsep. subst ao.
    pose proof Ho as (_ & _ & _ & resto & Hso & _).
    apply Hf; [|destruct Hsep; congruence|eapply lookup_lt_Some; eassumption].
    intros ->. congruence.
Qed.

Lemma vec_push_leaves_the_rest_witness :
  let st := mkState
      [Some (OVec (mkVec 1 1 (Some 1%nat)));
       Some (OArray [Some (PExt 5)]);
       Some (OVec (mkVec 8 1 (Some 3%nat)));
       Some (OArray (Some (PExt 6) :: replicate 7 None))]
      [default_fault_handler] [] Null in
  exists st',
    vec_push (PVec 0%nat) (PExt 7) st = Ret (tt, st') /\
    vec_view (PVec 2%nat) st' = Some (8, [PExt 6]).
Proof.
  intros st.
  destruct (vec_push_leaves_the_rest st (PVec 0%nat) 1 [PExt 5] (PExt 7))
    as (st' & Hp & _ & Hother).
  - reflexivity.
  - lia.
  - exists st'. split; [exact Hp|].
    apply Hother; [reflexivity|discriminate|right; discriminate].
Defined.

Lemma vec_grow_releases_storage st vec cap l bv ba n :
  vec_rep st vec cap l bv (Some ba) ->
  cap < n <= INT_MAX ->
  exists st',
    vec_grow vec n st = Ret (tt, st') /\
    heap st' !! ba = Some None.
Proof.
  intros Hrep Hn. pose proof Hrep as (-> & Hv & Hr & rest & Hs & Hlen).
  unfold vec_grow.
  erewrite bind_ret by (apply load_vec_live; eassumption). simpl.
  replace (n <=? cap) with false by (symmetry; apply Z.leb_gt; lia).
  unfold realloc_array.
  replace (n <? 0) with false by (symmetry; apply Z.ltb_ge; lia).
  pose proof (lookup_lt_Some _ _ _ Hv) as Hbv.
  pose proof (lookup_lt_Some _ _ _ Hs) as Hba.
  assert (Hne : bv <> ba) by (eapply vec_rep_distinct; eassumption).
  erewrite (bind_ret (bind (load_array ba) _)).
  2:{ erewrite bind_ret by (apply load_array_live; eassumption).
      erewrite bind_ret by reflexivity.
      erewrite bind_ret.
      2:{ eapply free_live. simpl. rewrite lookup_app_l by lia. eassumption. }
      reflexivity. }
  erewrite store_vec_live.
  2:{ simpl. rewrite list_lookup_insert_ne by congruence.
      rewrite lookup_app_l by lia. eassumption. }
  eexists. split; [reflexivity|]. simpl.
  rewrite list_lookup_insert_ne by congruence.
  rewrite list_lookup_insert_eq; [reflexivity|].
  rewrite length_app. simpl. lia.
Qed.

(** X18.  The address [vec_entry_at] returns is an address into the storage
    array, and a push on a full vector reallocates that array: the address
    obtained before the push designates released storage after it, while the
    vector itself holds the old entries and the new one in the grown
    array. *)
Theorem slot_address_dangles_after_growth (st : state) (vec : ptr) (cap : Z)
    (l : list ptr) (index : Z) (entry : ptr) :
  vec_view vec st = Some (cap, l) ->
  Z.of_nat (length l) = cap ->
  0 <= index < cap ->
  (16 <= cap -> cap * 2 <= INT_MAX) ->
  exists ba st',
    vec_entry_at vec index st = Ret (PSlot ba index, st) /\
    vec_push vec entry st = Ret (tt, st') /\
    load_slot (PSlot ba index) st' = Stop (Undefined DanglingPointer) /\
    vec_view vec st' = Some (if cap <? 16 then 16 else cap * 2, l ++ [entry]).
Proof.
  intros Hview Hfull Hi Hdouble. apply vec_view_rep in Hview as (bv & a & Hrep).
  pose proof Hrep as (-> & Hv & Hr & Ha).
  destruct a as [ba|]; [|lia].
  exists ba.
  set (n := if cap <? 16 then 16 else cap * 2).
  assert (Hn : cap < n <= INT_MAX).
  { subst n. destruct (Z.ltb_spec cap 16); [unfold INT_MAX|]; lia. }
  destruct (vec_grow_spec _ _ _ _ _ _ n Hrep Hn) as (st1 & Hg & Hrep1 & _).
  destruct (vec_grow_releases_storage _ _ _ _ _ _ n Hrep Hn) as (st1' & Hg' & Hfreed).
  rewrite Hg in Hg'. injection Hg' as <-.
  destruct (vec_push_room _ _ _ _ _ _ entry Hrep1) as (st2 & Hp & Hrep2 & _); [lia|].
  destruct (vec_push_room_frame _ _ _ _ _ _ entry Hrep1) as (st2' & Hp' & Hf); [lia|].
  rewrite Hp in Hp'. injection Hp' as <-.
  pose proof (lookup_lt_Some _ _ _ Hv) as Hbv.
  destruct Ha as (rest & Hs & _).
  pose proof (lookup_lt_Some _ _ _ Hs) as Hba.
  assert (Hne : bv <> ba) by (eapply vec_rep_distinct; eassumption).
  exists st2. split; [eapply vec_entry_at_in_range; [exact Hrep|lia]|].
  split; [|split].
  - unfold vec_push.
    erewrite bind_ret by (apply load_vec_live; eassumption). cbn [size capacity].
    replace (Z.of_nat (length l) =? cap) with true
      by (symmetry; apply Z.eqb_eq; assumption).
    replace (if cap <? 16
             then vec_grow (PVec bv) 16
             else vec_grow (PVec bv) (wrap_int (cap * 2)))
      with (vec_grow (PVec bv) n).
    2:{ subst n. destruct (Z.ltb_spec cap 16); [reflexivity|].
        rewrite wrap_int_small by lia. reflexivity. }
    erewrite bind_ret by exact Hg. exact Hp.
  - simpl. unfold read_slot, load_array.
    apply bind_stop. apply bind_stop. unfold load.
    rewrite Hf by lia. now rewrite Hfreed.
  - apply vec_view_rep. eauto.
Qed.

Lemma slot_address_dangles_after_growth_witness :
  let st := mkState
      [Some (OVec (mkVec 1 1 (Some 1%nat))); Some (OArray [Some (PExt 5)])]
      [default_fault_handler] [] Null in
  exists ba st',
    vec_entry_at (PVec 0%nat) 0 st = Ret (PSlot ba 0, st) /\
    vec_push (PVec 0%nat) (PExt 6) st = Ret (tt, st') /\
    load_slot (PSlot ba 0) st' = Stop (Undefined DanglingPointer) /\
    vec_view (PVec 0%nat) st' = Some (16, [PExt 5; PExt 6]).
Proof.
  intros st.
  apply (slot_address_dangles_after_growth st (PVec 0%nat) 1 [PExt 5] 0 (PExt 6));
    [reflexivity|reflexivity|lia|lia].
Defined.

(** X19.  [vec_remove] of an entry the vector holds: the occurrence at the
    highest index is removed, the entries behind it move down one slot in
    order, capacity and storage array stay, and no block other than the
    header and the storage array of the vector changes. *)
Theorem vec_remove_last_occurrence (st : state) (vec : ptr) (cap : Z)
    (l1 l2 : list ptr) (entry : ptr) :
  vec_view vec st = Some (cap, l1 ++ entry :: l2) ->
  entry ∉ l2 ->
  exists st',
    vec_remove vec entry st = Ret (tt, st') /\
    vec_view vec st' = Some (cap, l1 ++ l2) /\
    vec_storage vec st' = vec_storage vec st /\
    length (heap st') = length (heap st) /\
    (forall b, vec <> PVec b -> vec_storage vec st <> Some b ->
               heap st' !! b = heap st !! b) /\
    handlers st' = handlers st /\ delivered st' = delivered st /\
    vGlobalLtlArray st' = vGlobalLtlArray st.
Proof.
  intros Hview Hnotin. apply vec_view_rep in Hview as (bv & a & Hrep).
  pose proof Hrep as (-> & Hv & Hr & Ha).
  destruct a as [ba|].
  2:{ rewrite length_app in Hr. simpl in Hr. lia. }
  destruct (vec_remove_present st (PVec bv) cap l1 entry l2 bv ba Hrep Hnotin)
    as (st' & Hrm & Hrep' & Hlen & Hframe & Hrest).
  exists st'. split; [exact Hrm|].
  split; [apply vec_view_rep; eauto|].
  split.
  { rewrite (vec_rep_storage _ _ _ _ _ _ Hrep), (vec_rep_storage _ _ _ _ _ _ Hrep').
    reflexivity. }
  split; [exact Hlen|]. split; [|exact Hrest].
  intros b Hb1 Hb2. rewrite (vec_rep_storage _ _ _ _ _ _ Hrep) in Hb2.
  apply Hframe; congruence.
Qed.

Lemma vec_remove_last_occurrence_witness :
  let st := mkState
      [Some (OVec (mkVec 8 4 (Some 1%nat)));
       Some (OArray (Some (PExt 5) :: Some (PExt 6) :: Some (PExt 5) ::
                     Some (PExt 7) :: replicate 4 None))]
      [default_fault_handler] [] Null in
  exists st',
    vec_remove (PVec 0%nat) (PExt 5) st = Ret (tt, st') /\
    vec_view (PVec 0%nat) st' = Some (8, [PExt 5; PExt 6; PExt 7]).
Proof.
  intros st.
  destruct (vec_remove_last_occurrence st (PVec 0%nat) 8 [PExt 5; PExt 6]
              [PExt 7] (PExt 5)) as (st' & Hrm & Hview & _).
  - reflexivity.
  - intros H. apply list_elem_of_singleton in H. discriminate.
  - exists st'. split; [exact Hrm|exact Hview].
Defined.

(** X20.  A push followed by the removal of the same entry gives back the
    entries there were, also when the entry already occurred among them: the
    occurrence removed is the one just pushed.  The capacity is the one the
    push left. *)
Theorem vec_push_then_remove (st : state) (vec : ptr) (cap : Z) (l : list ptr)
    (entry : ptr) :
  vec_view vec st = Some (cap, l) ->
  (16 <= cap -> cap * 2 <= INT_MAX) ->
  exists st' cap',
    (vec_push vec entry ;;; vec_remove vec entry) st = Ret (tt, st') /\
    vec_view vec st' = Some (cap', l) /\
    cap' = (if Z.of_nat (length l) =? cap
            then if cap <? 16 then 16 else cap * 2 else cap).
Proof.
  intros Hview Hdouble. apply vec_view_rep in Hview as (bv & a & Hrep).
  destruct (vec_push_spec st vec cap l bv a entry Hrep)
    as (st1 & a1 & Hp & Hrep1 & _); [auto|].
  pose proof Hrep1 as (_ & _ & Hr1 & Ha1).
  destruct a1 as [ba1|].
  2:{ rewrite Ha1, length_app in Hr1. simpl in Hr1. lia. }
  destruct (vec_remove_present st1 vec _ l entry [] bv ba1 Hrep1)
    as (st2 & Hrm & Hrep2 & _).
  { apply not_elem_of_nil. }
  rewrite app_nil_r in Hrep2.
  eexists st2, _. split; [|split; [apply vec_view_rep; eauto|reflexivity]].
  erewrite bind_ret by exact Hp. exact Hrm.
Qed.

Lemma vec_push_then_remove_witness :
  let st := mkState
      [Some (OVec (mkVec 8 2 (Some 1%nat)));
       Some (OArray (Some (PExt 5) :: Some (PExt 6) :: replicate 6 None))]
      [default_fault_handler] [] Null in
  exists st',
    (vec_push (PVec 0%nat) (PExt 5) ;;; vec_remove (PVec 0%nat) (PExt 5)) st
      = Ret (tt, st') /\
    vec_view (PVec 0%nat) st' = Some (8, [PExt 5; PExt 6]).
Proof.
  intros st.
  destruct (vec_push_then_remove st (PVec 0%nat) 8 [PExt 5; PExt 6] (PExt 5))
    as (st' & cap' & Hrun & Hview & Hcap).
  - reflexivity.
  - unfold INT_MAX. lia.
  - exists st'. split; [exact Hrun|]. rewrite Hview, Hcap. reflexivity.
Defined.

Lemma vec_remove_scan_misses ba s entry st :
  heap st !! ba = Some (Some (OArray s)) ->
  Z.of_nat (length s) <= INT_MAX ->
  forall (k fuel : nat),
    (forall m, (m < k)%nat -> exists p, s !! m = Some (Some p) /\ p <> entry) ->
    (k < fuel)%nat ->
    (k <= length s)%nat ->
    vec_remove_scan fuel (Some ba) entry (wrap_uint (Z.of_nat k - 1)) st
      = Stop (Undefined OutOfBounds).
Proof.
  intros Hs Hmax. induction k as [|k IH]; intros fuel Hskip Hfuel Hk;
    (destruct fuel as [|fuel]; [lia|]); simpl.
  - change (wrap_uint (Z.of_nat 0 - 1)) with 4294967295. simpl.
    apply bind_stop. eapply read_slot_out_of_bounds; [exact Hs|].
    unfold INT_MAX in Hmax. lia.
  - replace (wrap_uint (Z.of_nat (S k) - 1)) with (Z.of_nat k)
      by (rewrite wrap_uint_small; unfold INT_MAX in *; lia).
    replace (0 <=? Z.of_nat k) with true by (symmetry; apply Z.leb_le; lia).
    destruct (Hskip k) as (p & Hp & Hne); [lia|].
    erewrite bind_ret by (eapply read_slot_at; eassumption).
    rewrite decide_False by assumption.
    apply IH; [|lia|lia]. intros m Hm. apply Hskip. lia.
Qed.

(** X21.  [vec_remove] of an entry a well-formed vector does not hold, for
    every such vector: the scan passes slot 0, the unsigned index wraps to
    4294967295 and the storage array is read outside its bounds (through a
    null pointer when the vector has no storage).  The call returns nothing
    and the assertion after the scan is not what stops it. *)
Theorem vec_remove_absent (st : state) (vec : ptr) (cap : Z) (l : list ptr)
    (entry : ptr) :
  vec_view vec st = Some (cap, l) ->
  entry ∉ l ->
  vec_remove vec entry st =
    Stop (Undefined (match vec_storage vec st with
                     | Some _ => OutOfBounds
                     | None => NullDereference
                     end)).
Proof.
  intros Hview Hnotin. apply vec_view_rep in Hview as (bv & a & Hrep).
  rewrite (vec_rep_storage _ _ _ _ _ _ Hrep).
  pose proof Hrep as (-> & Hv & Hr & Ha).
  unfold vec_remove.
  erewrite bind_ret by (apply load_vec_live; eassumption). cbn [size array].
  apply bind_stop.
  destruct a as [ba|].
  - destruct Ha as (rest & Hs & Hlen).
    eapply vec_remove_scan_misses with (k := length l); [exact Hs| | | |].
    + rewrite length_app, length_fmap. lia.
    + intros m Hm. destruct (l !! m) as [p|] eqn:Hp.
      2:{ apply lookup_ge_None in Hp. lia. }
      exists p. split.
      * rewrite lookup_app_l by (rewrite length_fmap; lia).
        now rewrite list_lookup_fmap, Hp.
      * intros ->. apply Hnotin. eapply list_elem_of_lookup_2. eassumption.
    + pose proof (wrap_uint_range (Z.of_nat (length l) - 1)).
      destruct l as [|x l]; [cbn [length]; lia|].
      rewrite wrap_uint_small by (simpl length in *; unfold INT_MAX in *; lia).
      simpl length. lia.
    + rewrite length_app, length_fmap. lia.
  - assert (l = []) by (destruct l; [reflexivity|simpl in Hr; lia]). subst l.
    change (wrap_uint (Z.of_nat (length (@nil ptr)) - 1)) with 4294967295.
    destruct (Z.to_nat 4294967295 + 2)%nat as [|fuel] eqn:Hfuel; [lia|].
    reflexivity.
Qed.

Lemma vec_remove_absent_witness :
  let st := mkState
      [Some (OVec (mkVec 8 2 (Some 1%nat)));
       Some (OArray (Some (PExt 5) :: Some (PExt 6) :: replicate 6 None))]
      [default_fault_handler] [] Null in
  vec_remove (PVec 0%nat) (PExt 9) st = Stop (Undefined OutOfBounds).
Proof.
  intros st.
  apply (vec_remove_absent st (PVec 0%nat) 8 [PExt 5; PExt 6] (PExt 9)).
  - reflexivity.
  - intros H. repeat (apply elem_of_cons in H as [H|H]; [discriminate|]).
    now apply not_elem_of_nil in H.
Defined.
